(** * The agent of the React developer tools (src/agent/Agent.js)

    A shallow embedding of the [Agent] class: the identity registry
    ([ids], [reactElements]), the element store ([elementData], [roots],
    [renderers]), the lifecycle callbacks of the producers ([addRoot],
    [onMounted], [onUpdated], [onUnmounted]), the commands of the frontend
    ([highlight], [highlightMany], [_setProps], [_setState], [_setContext],
    [_makeGlobal]), the lookups between identities and native nodes
    ([getNodeForID], [getIDForNode]) and the scroll debounce; further
    [scrollToNode], the two selections from the page, the capabilities the
    constructor computes, and the handlers [addBridge] installs for
    [selected], [putSelectedNode], [putSelectedInstance] and
    [checkSelection].

    JavaScript values are first-order trees; every object, array and
    function carries the address that is its reference identity.  Methods
    run in a state monad whose computations either return or throw, and in
    both cases leave the state they reached behind, as a JavaScript
    exception does.

    What lies outside the class is taken as follows.
    - [guid], the token generator of [../utils/guid], is a parameter.
    - A function of a producer (a helper of a renderer, a slot of an
      updater) is a parameter as well: called, it returns a value or throws,
      and it does not call back into the agent.  The agent's record of what
      it has invoked shows every such call.
    - The listeners subscribed to the agent's events see them in the record
      of emitted events and return.
    - An object has its own data properties; accessors, proxies and the
      prototype chain are left out, but for [Array.prototype.map].
    - [assign], of the package object-assign, copies the own enumerable
      properties of its source as [Object.assign] does.
    - [window] is a value the page gives, and
      [window.__REACT_DEVTOOLS_GLOBAL_HOOK__] an object with data
      properties that is there before the agent is made. *)

From Stdlib Require Import ZArith String List DecimalString.
From stdpp Require Import gmap strings list pretty.

Open Scope string_scope.
Open Scope list_scope.

(** ** Values *)

(** Reference identities.  [Ext] addresses belong to objects made outside
    the agent (handles, snapshots, helpers, updaters), [Loc n] is the n-th
    object the agent itself allocates, [Builtin] names a function of the
    language. *)
Inductive addr :=
| Ext (n : nat)
| Loc (n : nat)
| Builtin (name : string).

#[global] Instance addr_eq_dec : EqDecision addr.
Proof. solve_decision. Defined.

#[global] Instance addr_countable : Countable addr.
Proof.
  refine (inj_countable'
    (λ a, match a with
          | Ext n => inl n
          | Loc n => inr (inl n)
          | Builtin f => inr (inr f)
          end)
    (λ c, match c with
          | inl n => Ext n
          | inr (inl n) => Loc n
          | inr (inr f) => Builtin f
          end) _).
  intros a. destruct a; reflexivity.
Defined.

Set Warnings "-register-all".

(** Numbers are the integral ones; [VObj] lists the own data properties of
    an object in insertion order, [VArr] the elements of an array. *)
Inductive value :=
| VUndef
| VNull
| VBool (b : bool)
| VNum (z : Z)
| VStr (s : string)
| VFun (a : addr)
| VObj (a : addr) (props : list (string * value))
| VArr (a : addr) (items : list value).

(** What a [Map] or [Set] compares its keys by: the content of a primitive,
    the identity of an object. *)
Inductive key :=
| KUndef
| KNull
| KBool (b : bool)
| KNum (z : Z)
| KStr (s : string)
| KRef (a : addr).

#[global] Instance key_eq_dec : EqDecision key.
Proof. solve_decision. Defined.

#[global] Instance key_countable : Countable key.
Proof.
  refine (inj_countable'
    (λ k, match k with
          | KUndef => inl (inl false)
          | KNull => inl (inl true)
          | KBool b => inl (inr b)
          | KNum z => inr (inl z)
          | KStr s => inr (inr (inl s))
          | KRef a => inr (inr (inr a))
          end)
    (λ c, match c with
          | inl (inl false) => KUndef
          | inl (inl true) => KNull
          | inl (inr b) => KBool b
          | inr (inl z) => KNum z
          | inr (inr (inl s)) => KStr s
          | inr (inr (inr a)) => KRef a
          end) _).
  intros k. destruct k; reflexivity.
Defined.

Definition key_of (v : value) : key :=
  match v with
  | VUndef => KUndef
  | VNull => KNull
  | VBool b => KBool b
  | VNum z => KNum z
  | VStr s => KStr s
  | VFun a => KRef a
  | VObj a _ => KRef a
  | VArr a _ => KRef a
  end.

(** [v] in a boolean position. *)
Definition truthy (v : value) : bool :=
  match v with
  | VUndef | VNull => false
  | VBool b => b
  | VNum z => negb (Z.eqb z 0)
  | VStr s => negb (String.eqb s EmptyString)
  | VFun _ | VObj _ _ | VArr _ _ => true
  end.

(** [typeof v === 'object' && v]: the address of an object or array, and
    nothing for a primitive, for [null] and for a function. *)
Definition ref_of (v : value) : option addr :=
  match v with
  | VObj a _ | VArr a _ => Some a
  | _ => None
  end.

Definition object_like (v : value) : bool :=
  match ref_of v with Some _ => true | None => false end.

(** ** Properties *)

(** A property name that is an array index: a canonical decimal numeral
    below 2^32 - 1. *)
Definition array_index (k : string) : option N :=
  match NilEmpty.uint_of_string k with
  | Some d =>
      let n := N.of_uint d in
      if String.eqb (NilZero.string_of_uint (N.to_uint n)) k && N.ltb n 4294967295
      then Some n else None
  | None => None
  end.

Definition lookup_prop {A} (k : string) (ps : list (string * A)) : option A :=
  match List.find (λ p, String.eqb (fst p) k) ps with
  | Some p => Some (snd p)
  | None => None
  end.

(** [o[k] = v]: an existing property keeps its place. *)
Fixpoint set_prop {A} (k : string) (v : A) (ps : list (string * A)) : list (string * A) :=
  match ps with
  | [] => [(k, v)]
  | p :: ps' => if String.eqb (fst p) k then (k, v) :: ps' else p :: set_prop k v ps'
  end.

(** [delete o[k]] *)
Definition delete_prop {A} (k : string) (ps : list (string * A)) : list (string * A) :=
  List.filter (λ p, negb (String.eqb (fst p) k)) ps.

(** The order in which [for (k in o)] and [assign] visit the own
    properties of an object (the language's OrdinaryOwnPropertyKeys): the
    names that are array indices first, in ascending numeric order, then the
    other names in the order they were added. *)
Fixpoint insert_index {A} (n : N) (p : string * A) (l : list (N * (string * A))) :=
  match l with
  | [] => [(n, p)]
  | q :: l' => if N.ltb n (fst q) then (n, p) :: q :: l' else q :: insert_index n p l'
  end.

Fixpoint index_props {A} (ps : list (string * A)) : list (N * (string * A)) :=
  match ps with
  | [] => []
  | p :: ps' =>
      match array_index (fst p) with
      | Some n => insert_index n p (index_props ps')
      | None => index_props ps'
      end
  end.

Definition is_index (k : string) : bool :=
  match array_index k with Some _ => true | None => false end.

Definition enumerate {A} (ps : list (string * A)) : list (string * A) :=
  List.map snd (index_props ps) ++ List.filter (λ p, negb (is_index (fst p))) ps.

(** The string a primitive names a property by. *)
Definition to_key (v : value) : option string :=
  match v with
  | VStr s => Some s
  | VNum z => Some (NilZero.string_of_int (Z.to_int z))
  | VBool true => Some "true"
  | VBool false => Some "false"
  | VUndef => Some "undefined"
  | VNull => Some "null"
  | VFun _ | VObj _ _ | VArr _ _ => None
  end.

Definition array_map : addr := Builtin "Array.prototype.map".

Definition array_prop (items : list value) (k : string) : value :=
  if String.eqb k "length" then VNum (Z.of_nat (length items))
  else if String.eqb k "map" then VFun array_map
  else match array_index k with
       | Some n => nth (N.to_nat n) items VUndef
       | None => VUndef
       end.

Definition string_prop (s : string) (k : string) : value :=
  if String.eqb k "length" then VNum (Z.of_nat (String.length s))
  else match array_index k with
       | Some n =>
           match String.get (N.to_nat n) s with
           | Some c => VStr (String c EmptyString)
           | None => VUndef
           end
       | None => VUndef
       end.

(** ** Outcomes *)

Inductive exn :=
| TypeError (msg : string)
| Thrown (v : value).

Inductive outcome (A : Type) :=
| Ret (a : A)
| Throw (e : exn).
Arguments Ret {A} a.
Arguments Throw {A} e.

(** [obj[k]].  Reading a property of [undefined] or [null] is a TypeError;
    on every other value the read succeeds.  Own data properties are
    modelled and, of the inherited ones, the [map] of arrays, which the
    agent tests for; accessors and proxies are not. *)
Definition get (obj : value) (k : string) : outcome value :=
  match obj with
  | VUndef | VNull => Throw (TypeError (String.append "Cannot read property " k))
  | VObj _ ps => Ret (default VUndef (lookup_prop k ps))
  | VArr _ items => Ret (array_prop items k)
  | VStr s => Ret (string_prop s k)
  | VBool _ | VNum _ | VFun _ => Ret VUndef
  end.

(** The own enumerable properties [assign] copies from a source. *)
Definition index_name (i : nat) : string := NilZero.string_of_uint (Nat.to_uint i).

Definition own_props (v : value) : list (string * value) :=
  match v with
  | VObj _ ps => enumerate ps
  | VArr _ items => imap (λ i x, (index_name i, x)) items
  | VStr s => imap (λ i c, (index_name i, VStr (String c EmptyString))) (list_ascii_of_string s)
  | _ => []
  end.

(** ** The state *)

Inductive event := Event (name : string) (args : list value).

Inductive invocation := Call (f : addr) (args : list value).

(** The fields of the class as far as the methods below use them, followed
    by what the agent's surroundings record: how many tokens [guid] has
    handed out, how many objects the agent has allocated, the events it has
    emitted, the console lines it has printed, the callbacks waiting for the
    next animation frame (only [_updateScroll] is ever requested) and the
    functions of others it has invoked. *)
Record Agent := mkAgent {
  global : gmap string value;
  reactElements : gmap key value;
  ids : gmap addr string;
  elementData : gmap key value;
  roots : gset key;
  reactInternals : list (string * value);
  renderers : gmap key string;
  _scrollUpdate : bool;
  guid_calls : nat;
  allocs : nat;
  emitted : list event;
  console : list (string * list value);
  frame_requests : nat;
  invoked : list invocation
}.

Definition set_global (f : gmap string value → gmap string value) (s : Agent) : Agent :=
  mkAgent (f (global s)) (reactElements s) (ids s) (elementData s) (roots s)
    (reactInternals s) (renderers s) (_scrollUpdate s) (guid_calls s) (allocs s)
    (emitted s) (console s) (frame_requests s) (invoked s).

Definition set_reactElements (f : gmap key value → gmap key value) (s : Agent) : Agent :=
  mkAgent (global s) (f (reactElements s)) (ids s) (elementData s) (roots s)
    (reactInternals s) (renderers s) (_scrollUpdate s) (guid_calls s) (allocs s)
    (emitted s) (console s) (frame_requests s) (invoked s).

Definition set_ids (f : gmap addr string → gmap addr string) (s : Agent) : Agent :=
  mkAgent (global s) (reactElements s) (f (ids s)) (elementData s) (roots s)
    (reactInternals s) (renderers s) (_scrollUpdate s) (guid_calls s) (allocs s)
    (emitted s) (console s) (frame_requests s) (invoked s).

Definition set_elementData (f : gmap key value → gmap key value) (s : Agent) : Agent :=
  mkAgent (global s) (reactElements s) (ids s) (f (elementData s)) (roots s)
    (reactInternals s) (renderers s) (_scrollUpdate s) (guid_calls s) (allocs s)
    (emitted s) (console s) (frame_requests s) (invoked s).

Definition set_roots (f : gset key → gset key) (s : Agent) : Agent :=
  mkAgent (global s) (reactElements s) (ids s) (elementData s) (f (roots s))
    (reactInternals s) (renderers s) (_scrollUpdate s) (guid_calls s) (allocs s)
    (emitted s) (console s) (frame_requests s) (invoked s).

Definition set_reactInternals (f : list (string * value) → list (string * value))
    (s : Agent) : Agent :=
  mkAgent (global s) (reactElements s) (ids s) (elementData s) (roots s)
    (f (reactInternals s)) (renderers s) (_scrollUpdate s) (guid_calls s) (allocs s)
    (emitted s) (console s) (frame_requests s) (invoked s).

Definition set_renderers (f : gmap key string → gmap key string) (s : Agent) : Agent :=
  mkAgent (global s) (reactElements s) (ids s) (elementData s) (roots s)
    (reactInternals s) (f (renderers s)) (_scrollUpdate s) (guid_calls s) (allocs s)
    (emitted s) (console s) (frame_requests s) (invoked s).

Definition set_scrollUpdate (b : bool) (s : Agent) : Agent :=
  mkAgent (global s) (reactElements s) (ids s) (elementData s) (roots s)
    (reactInternals s) (renderers s) b (guid_calls s) (allocs s)
    (emitted s) (console s) (frame_requests s) (invoked s).

Definition set_guid_calls (n : nat) (s : Agent) : Agent :=
  mkAgent (global s) (reactElements s) (ids s) (elementData s) (roots s)
    (reactInternals s) (renderers s) (_scrollUpdate s) n (allocs s)
    (emitted s) (console s) (frame_requests s) (invoked s).

Definition set_allocs (n : nat) (s : Agent) : Agent :=
  mkAgent (global s) (reactElements s) (ids s) (elementData s) (roots s)
    (reactInternals s) (renderers s) (_scrollUpdate s) (guid_calls s) n
    (emitted s) (console s) (frame_requests s) (invoked s).

Definition set_emitted (f : list event → list event) (s : Agent) : Agent :=
  mkAgent (global s) (reactElements s) (ids s) (elementData s) (roots s)
    (reactInternals s) (renderers s) (_scrollUpdate s) (guid_calls s) (allocs s)
    (f (emitted s)) (console s) (frame_requests s) (invoked s).

Definition set_console (f : list (string * list value) → list (string * list value))
    (s : Agent) : Agent :=
  mkAgent (global s) (reactElements s) (ids s) (elementData s) (roots s)
    (reactInternals s) (renderers s) (_scrollUpdate s) (guid_calls s) (allocs s)
    (emitted s) (f (console s)) (frame_requests s) (invoked s).

Definition set_frame_requests (n : nat) (s : Agent) : Agent :=
  mkAgent (global s) (reactElements s) (ids s) (elementData s) (roots s)
    (reactInternals s) (renderers s) (_scrollUpdate s) (guid_calls s) (allocs s)
    (emitted s) (console s) n (invoked s).

Definition set_invoked (f : list invocation → list invocation) (s : Agent) : Agent :=
  mkAgent (global s) (reactElements s) (ids s) (elementData s) (roots s)
    (reactInternals s) (renderers s) (_scrollUpdate s) (guid_calls s) (allocs s)
    (emitted s) (console s) (frame_requests s) (f (invoked s)).

(** ** Computations *)

Definition M (A : Type) : Type := Agent → outcome A * Agent.

Definition ret {A} (a : A) : M A := λ s, (Ret a, s).

Definition throw {A} (e : exn) : M A := λ s, (Throw e, s).

Definition bind {A B} (m : M A) (k : A → M B) : M B :=
  λ s, match m s with
       | (Ret a, s') => k a s'
       | (Throw e, s') => (Throw e, s')
       end.

(** [try { m } catch (e) {}] followed by reading what [m] was to assign:
    [d] stands for the value the assigned variable held before. *)
Definition try_or {A} (m : M A) (d : A) : M A :=
  λ s, match m s with
       | (Ret a, s') => (Ret a, s')
       | (Throw _, s') => (Ret d, s')
       end.

Definition gets {A} (f : Agent → A) : M A := λ s, (Ret (f s), s).

Definition modify (f : Agent → Agent) : M unit := λ s, (Ret tt, f s).

Definition lift {A} (o : outcome A) : M A := λ s, (o, s).

Declare Scope agent_scope.
Delimit Scope agent_scope with agent.
Notation "'let!' x := m 'in' k" := (bind m (λ x, k))
  (at level 10, x name, m at level 100, k at level 200) : agent_scope.
Notation "'run!' m 'in' k" := (bind m (λ _, k))
  (at level 10, m at level 100, k at level 200) : agent_scope.
Open Scope agent_scope.

(** The result of a computation and the state it leaves. *)
Definition result {A} (m : M A) (s : Agent) : outcome A := fst (m s).
Definition after {A} (m : M A) (s : Agent) : Agent := snd (m s).

(** ** The methods *)

Section Agent.

(** [guid] comes from [../utils/guid]: [guid n] is the token its n-th call
    returns. *)
Variable guid : nat → string.

(** What a function made outside the agent does when it is called: it
    returns or throws.  Such a function does not call back into the agent. *)
Variable call_fn : addr → list value → outcome value.

Definition new_Agent (window_global : gmap string value) : Agent :=
  mkAgent window_global ∅ ∅ ∅ ∅ [] ∅ false 0 0 [] [] 0 [].

(** [guid()] *)
Definition next_guid : M string :=
  λ s, (Ret (guid (guid_calls s)), set_guid_calls (S (guid_calls s)) s).

(** A fresh object, array or closure of the agent's. *)
Definition fresh : M addr :=
  λ s, (Ret (Loc (allocs s)), set_allocs (S (allocs s)) s).

Definition console_warn (args : list value) : M unit :=
  modify (set_console (λ l, l ++ [("warn", args)])).

Definition console_log (args : list value) : M unit :=
  modify (set_console (λ l, l ++ [("log", args)])).

(** The listener the constructor installs for [selected]. *)
Definition on_selected (args : list value) : M unit :=
  let id := nth 0 args VUndef in
  let! data := gets (λ s, default VUndef (elementData s !! key_of id)) in
  if truthy data then
    let! inst := lift (get data "publicInstance") in
    if truthy inst then modify (set_global (insert "$re" inst)) else ret tt
  else ret tt.

(** [this.emit(name, ...args)].  The listeners others have subscribed see
    the event in [emitted]; they return without calling the agent. *)
Definition emit (name : string) (args : list value) : M unit :=
  run! modify (set_emitted (λ l, l ++ [Event name args])) in
  if String.eqb name "selected" then on_selected args else ret tt.

(** [f.call(self, ...args)] *)
Definition call (f : value) (args : list value) : M value :=
  match f with
  | VFun a =>
      run! modify (set_invoked (λ l, l ++ [Call a args])) in
      lift (call_fn a args)
  | _ => throw (TypeError "not a function")
  end.

Definition setReactInternals (renderer : string) (helpers : value) : M unit :=
  modify (set_reactInternals (set_prop renderer helpers)).

Definition getId (element : value) : M value :=
  match ref_of element with
  | None => ret element
  | Some a =>
      let! known := gets (λ s, ids s !! a) in
      match known with
      | Some t => ret (VStr t)
      | None =>
          let! t := next_guid in
          run! modify (set_ids (insert a t)) in
          run! modify (set_reactElements (insert (KStr t) element)) in
          ret (VStr t)
      end
  end.

Definition addRoot (renderer : string) (element : value) : M unit :=
  let! id := getId element in
  run! modify (set_roots (λ r, {[key_of id]} ∪ r)) in
  emit "root" [id].

(** [items.map(c => this.getId(c))] *)
Fixpoint map_getId (items : list value) : M (list value) :=
  match items with
  | [] => ret []
  | c :: rest =>
      let! i := getId c in
      let! tokens := map_getId rest in
      ret (i :: tokens)
  end.

(** [children.map(c => this.getId(c))], where [map] is what
    [children.map] has just been read as. *)
Definition call_map (children map : value) : M value :=
  let! closure := fresh in
  match map, children with
  | VFun (Builtin _), VArr _ items =>
      let! tokens := map_getId items in
      let! a := fresh in
      ret (VArr a tokens)
  | _, _ => call map [VFun closure]
  end.

(** [if (send.children && send.children.map) send.children =
    send.children.map(c => this.getId(c))] *)
Definition translate_children (send : list (string * value)) : M (list (string * value)) :=
  let children := default VUndef (lookup_prop "children" send) in
  if truthy children then
    let! map := lift (get children "map") in
    if truthy map then
      let! mapped := call_map children map in
      ret (set_prop "children" mapped send)
    else ret send
  else ret send.

(** [send.updater && !!send.updater.forceUpdate] *)
Definition canUpdate_of (send : list (string * value)) : M value :=
  let updater := default VUndef (lookup_prop "updater" send) in
  if truthy updater then
    let! forceUpdate := lift (get updater "forceUpdate") in
    ret (VBool (truthy forceUpdate))
  else ret updater.

(** What [onMounted] and [onUpdated] both do from [assign({}, data)] to
    [delete send.updater]. *)
Definition make_send (id data : value) : M value :=
  let! a := fresh in
  let! send := translate_children (own_props data) in
  let send := set_prop "id" id send in
  let! canUpdate := canUpdate_of send in
  let send := set_prop "canUpdate" canUpdate send in
  let send := delete_prop "type" send in
  let send := delete_prop "updater" send in
  ret (VObj a send).

Definition onMounted (renderer : string) (component data : value) : M unit :=
  let! id := getId component in
  run! modify (set_renderers (insert (key_of id) renderer)) in
  run! modify (set_elementData (insert (key_of id) data)) in
  let! send := make_send id data in
  emit "mount" [send].

Definition onUpdated (component data : value) : M unit :=
  let! id := getId component in
  run! modify (set_elementData (insert (key_of id) data)) in
  let! send := make_send id data in
  emit "update" [send].

Definition onUnmounted (component : value) : M unit :=
  let! id := getId component in
  run! modify (set_elementData (delete (key_of id))) in
  run! modify (set_roots (λ r, r ∖ {[key_of id]})) in
  run! modify (set_renderers (delete (key_of id))) in
  run! emit "unmount" [id] in
  match component with
  | VObj a _ | VArr a _ | VFun a => modify (set_ids (delete a))
  | _ => ret tt
  end.

Definition getNodeForID (id : value) : M value :=
  let! component := gets (λ s, default VUndef (reactElements s !! key_of id)) in
  if truthy component then
    let! renderer := gets (λ s, renderers s !! key_of id) in
    match renderer with
    | Some r =>
        if negb (String.eqb r EmptyString) then
          let! helpers := gets (λ s, default VUndef (lookup_prop r (reactInternals s))) in
          let! f := lift (get helpers "getNativeFromReactElement") in
          if truthy f then call f [component] else ret VNull
        else ret VNull
    | None => ret VNull
    end
  else ret VNull.

Definition highlight (id : value) : M unit :=
  let! data := gets (λ s, default VUndef (elementData s !! key_of id)) in
  let! node := getNodeForID id in
  if truthy data && truthy node then
    let! name := lift (get data "name") in
    let! props := lift (get data "props") in
    let! a := fresh in
    emit "highlight" [VObj a [("node", node); ("name", name); ("props", props)]]
  else ret tt.

(** [ids.forEach(id => ...)] over the array [nodes] it pushes to. *)
Fixpoint push_nodes (ids nodes : list value) : M (list value) :=
  match ids with
  | [] => ret nodes
  | id :: rest =>
      let! node := getNodeForID id in
      push_nodes rest (if truthy node then nodes ++ [node] else nodes)
  end.

Definition highlightMany (ids : list value) : M unit :=
  let! a := fresh in
  let! nodes := push_nodes ids [] in
  if negb (Nat.eqb (length nodes) 0) then emit "highlightMany" [VArr a nodes]
  else ret tt.

(** The loop of [getIDForNode] over the names [for (renderer in
    this.reactInternals)] visits; [component] is the variable declared
    before the loop, which a lookup that throws leaves as it was. *)
Fixpoint getIDForNode_loop (names : list string) (component node : value) : M value :=
  match names with
  | [] => ret VNull
  | renderer :: rest =>
      let! component :=
        try_or
          (let! helpers := gets (λ s, default VUndef (lookup_prop renderer (reactInternals s))) in
           let! f := lift (get helpers "getReactElementFromNative") in
           call f [node])
          component in
      if truthy component then getId component
      else getIDForNode_loop rest component node
  end.

(** [this.reactInternals] is an object from the constructor on, so the
    first test never returns. *)
Definition getIDForNode (node : value) : M value :=
  let! names := gets (λ s, List.map fst (enumerate (reactInternals s))) in
  getIDForNode_loop names VUndef node.

(** [_setProps], [_setState] and [_setContext] differ in the slot of the
    updater they call and in the text of the warning. *)
Definition set_in (slot warning : string) (id path v : value) : M unit :=
  let! data := gets (λ s, default VUndef (elementData s !! key_of id)) in
  let! f :=
    if truthy data then
      let! updater := lift (get data "updater") in
      if truthy updater then lift (get updater slot) else ret updater
    else ret data in
  if truthy f then
    run! call f [path; v] in
    ret tt
  else console_warn [VStr warning].

Definition _setProps : value → value → value → M unit :=
  set_in "setInProps" "trying to set props on a component that doesn't support it".

Definition _setState : value → value → value → M unit :=
  set_in "setInState" "trying to set state on a component that doesn't support it".

Definition _setContext : value → value → value → M unit :=
  set_in "setInContext" "trying to set state on a component that doesn't support it".

(** [obj ? obj[attr] : null].  A path names properties by primitives; the
    string conversion of an object used as a name is not modelled and reads
    as [undefined]. *)
Definition getIn_step (obj attr : value) : outcome value :=
  if truthy obj then
    match to_key attr with
    | Some k => get obj k
    | None => Ret VUndef
    end
  else Ret VNull.

Fixpoint reduce (f : value → value → outcome value) (l : list value) (acc : value)
    : outcome value :=
  match l with
  | [] => Ret acc
  | x :: l' =>
      match f acc x with
      | Ret acc' => reduce f l' acc'
      | Throw e => Throw e
      end
  end.

(** [path.reduce(...)]: only an array has [reduce]. *)
Definition getIn (base path : value) : outcome value :=
  match path with
  | VArr _ attrs => reduce getIn_step attrs base
  | _ => Throw (TypeError "path.reduce is not a function")
  end.

Definition is_instance (path : value) : bool :=
  match path with
  | VStr p => String.eqb p "instance"
  | _ => false
  end.

Definition _makeGlobal (id path : value) : M unit :=
  let! data := gets (λ s, default VUndef (elementData s !! key_of id)) in
  if truthy data then
    let! v :=
      if is_instance path then lift (get data "publicInstance")
      else lift (getIn data path) in
    run! modify (set_global (insert "$tmp" v)) in
    console_log [VStr "$tmp ="; v]
  else ret tt.

(** [window.requestAnimationFrame(this._updateScroll)] *)
Definition requestAnimationFrame : M unit :=
  modify (λ s, set_frame_requests (S (frame_requests s)) s).

Definition _onScroll : M unit :=
  let! pending := gets _scrollUpdate in
  if negb pending then
    run! modify (set_scrollUpdate true) in
    requestAnimationFrame
  else ret tt.

Definition _updateScroll : M unit :=
  run! emit "refreshMultiOverlay" [] in
  modify (set_scrollUpdate false).

(** The next animation frame: the browser runs the callbacks requested
    since the last one. *)
Fixpoint run_requests (n : nat) : M unit :=
  match n with
  | 0 => ret tt
  | S n' => run! _updateScroll in run_requests n'
  end.

Definition animation_frame : M unit :=
  let! n := gets frame_requests in
  run! modify (set_frame_requests 0) in
  run_requests n.

(** [a === b] on the values modelled: the content of primitives, the
    identity of objects. *)
Definition strict_equal (a b : value) : bool := bool_decide (key_of a = key_of b).

(** [typeof f === 'function'] *)
Definition is_function (f : value) : bool :=
  match f with
  | VFun _ => true
  | _ => false
  end.

(** [Node.ELEMENT_NODE] *)
Definition ELEMENT_NODE : value := VNum 1.

Definition scrollToNode (id : value) : M unit :=
  let! node := getNodeForID id in
  if truthy node then
    let! nodeType := lift (get node "nodeType") in
    let! element :=
      if strict_equal nodeType ELEMENT_NODE then ret node
      else lift (get node "parentElement") in
    if truthy element then
      let! precise := lift (get element "scrollIntoViewIfNeeded") in
      run! (if is_function precise then
              run! call precise [] in ret tt
            else
              let! basic := lift (get element "scrollIntoView") in
              if is_function basic then
                run! call basic [] in ret tt
              else ret tt) in
      highlight id
    else console_warn [VStr "unable to get the element for scrolling"]
  else console_warn [VStr "unable to get the node for scrolling"].

Definition selectFromDOMNode (node quiet : value) : M unit :=
  let! id := getIDForNode node in
  if truthy id then
    let! a := fresh in
    emit "setSelection" [VObj a [("id", id); ("quiet", quiet)]]
  else ret tt.

Definition selectFromReactInstance (instance quiet : value) : M unit :=
  let! id := getId instance in
  if truthy id then
    let! a := fresh in
    emit "setSelection" [VObj a [("id", id); ("quiet", quiet)]]
  else console_log [VStr "no instance id"; instance].

(** The handler [addBridge] installs for [selected]:
    [id => this.emit('selected', id)]. *)
Definition on_bridge_selected (id : value) : M unit := emit "selected" [id].

(** ** Runs of the agent *)

(** The calls the producers, the frontend and the browser make. *)
Inductive op :=
| SetReactInternals (renderer : string) (helpers : value)
| AddRoot (renderer : string) (element : value)
| OnMounted (renderer : string) (component data : value)
| OnUpdated (component data : value)
| OnUnmounted (component : value)
| Highlight (id : value)
| HighlightMany (ids : list value)
| GetIDForNode (node : value)
| SetProps (id path v : value)
| SetState (id path v : value)
| SetContext (id path v : value)
| MakeGlobal (id path : value)
| Scroll
| AnimationFrame.

Definition exec (o : op) : M unit :=
  match o with
  | SetReactInternals renderer helpers => setReactInternals renderer helpers
  | AddRoot renderer element => addRoot renderer element
  | OnMounted renderer component data => onMounted renderer component data
  | OnUpdated component data => onUpdated component data
  | OnUnmounted component => onUnmounted component
  | Highlight id => highlight id
  | HighlightMany ids => highlightMany ids
  | GetIDForNode node => run! getIDForNode node in ret tt
  | SetProps id path v => _setProps id path v
  | SetState id path v => _setState id path v
  | SetContext id path v => _setContext id path v
  | MakeGlobal id path => _makeGlobal id path
  | Scroll => _onScroll
  | AnimationFrame => animation_frame
  end.

Definition run (ops : list op) (s : Agent) : Agent :=
  fold_left (λ s o, after (exec o) s) ops s.

Inductive reachable : Agent → Prop :=
| reachable_new g : reachable (new_Agent g)
| reachable_exec o s : reachable s → reachable (after (exec o) s).

(** [o] unmounts the object at [a]. *)
Definition forgets (o : op) (a : addr) : Prop :=
  match o with
  | OnUnmounted (VObj b _) | OnUnmounted (VArr b _) | OnUnmounted (VFun b) => b = a
  | _ => False
  end.

(** ** The registry *)

(** Every token in [ids] is one [guid] has handed out, and no two objects
    hold the same. *)
Definition registry_ok (s : Agent) : Prop :=
  (∀ a t, ids s !! a = Some t → ∃ n, n < guid_calls s ∧ t = guid n) ∧
  (∀ a b t, ids s !! a = Some t → ids s !! b = Some t → a = b).

(** How one step may change the registry: not at all, by giving a fresh
    token to an object that has none, or by forgetting an object of [drop]. *)
Inductive registry_step (drop : addr → Prop) (s s' : Agent) : Prop :=
| registry_same :
    ids s' = ids s → guid_calls s' = guid_calls s → registry_step drop s s'
| registry_alloc a :
    ids s !! a = None →
    ids s' = <[a := guid (guid_calls s)]> (ids s) →
    guid_calls s' = S (guid_calls s) →
    registry_step drop s s'
| registry_forget a :
    drop a →
    ids s' = delete a (ids s) →
    guid_calls s' = guid_calls s →
    registry_step drop s s'.

Definition tracks (drop : addr → Prop) {A} (m : M A) : Prop :=
  ∀ s, rtc (registry_step drop) s (after m s).

Definition nothing : addr → Prop := λ _, False.

(** The words of the specification, to compare the methods with. *)

(** The children a snapshot lists. *)
Definition children_items (snapshot : value) : list value :=
  match get snapshot "children" with
  | Ret (VArr _ items) => items
  | _ => []
  end.

(** An identity the registry has allocated is a string token. *)
Definition is_token (v : value) : bool :=
  match v with
  | VStr _ => true
  | _ => false
  end.

(** What [getId] leaves in place of a child [c]: the token of an object,
    the child itself otherwise. *)
Definition identity_in (s : Agent) (c i : value) : Prop :=
  match ref_of c with
  | Some a => ∃ t, i = VStr t ∧ ids s !! a = Some t
  | None => i = c
  end.

(** The native node of [id], as [getNodeForID] finds it in state [s]. *)
Definition node_of (s : Agent) (id : value) : outcome value :=
  result (getNodeForID id) s.

Definition resolved_node (s : Agent) (id : value) : option value :=
  match node_of s id with
  | Ret node => if truthy node then Some node else None
  | Throw _ => None
  end.

(** The nodes of the identities that resolve, in the order of the input. *)
Definition resolved (s : Agent) (ids : list value) : list value :=
  omap (resolved_node s) ids.

(** The three commands that edit a component. *)
Inductive edit := Props | State | Context.

Definition slot_of (e : edit) : string :=
  match e with
  | Props => "setInProps"
  | State => "setInState"
  | Context => "setInContext"
  end.

Definition warning_of (e : edit) : string :=
  match e with
  | Props => "trying to set props on a component that doesn't support it"
  | State | Context => "trying to set state on a component that doesn't support it"
  end.

Definition command (e : edit) : value → value → value → M unit :=
  match e with
  | Props => _setProps
  | State => _setState
  | Context => _setContext
  end.

(** The slot of the updater of the snapshot stored under [id]:
    [undefined] without a snapshot, the falsy updater where the snapshot
    has none. *)
Definition updater_slot (s : Agent) (id : value) (slot : string) : value :=
  match elementData s !! key_of id with
  | None => VUndef
  | Some data =>
      if truthy data then
        match get data "updater" with
        | Ret updater =>
            if truthy updater then
              match get updater slot with Ret f => f | Throw _ => VUndef end
            else updater
        | Throw _ => VUndef
        end
      else data
  end.

(** What the producer registered as [renderer] answers for [node]: its
    [getReactElementFromNative] called on it, a TypeError where it has no
    such function. *)
Definition element_lookup (s : Agent) (renderer : string) (node : value) : outcome value :=
  match get (default VUndef (lookup_prop renderer (reactInternals s)))
            "getReactElementFromNative" with
  | Ret (VFun f) => call_fn f [node]
  | Ret _ => Throw (TypeError "not a function")
  | Throw e => Throw e
  end.

(** A producer matches when its lookup returns a component; one that
    throws does not. *)
Definition element_match (s : Agent) (node : value) (renderer : string) : option value :=
  match element_lookup s renderer node with
  | Ret component => if truthy component then Some component else None
  | Throw _ => None
  end.

(** The component of the first producer of [names] that matches. *)
Fixpoint first_match (s : Agent) (node : value) (names : list string) : option value :=
  match names with
  | [] => None
  | renderer :: rest =>
      match element_match s node renderer with
      | Some component => Some component
      | None => first_match s node rest
      end
  end.

(** The producers in the order they were registered, and in the order
    [for ... in] visits them. *)
Definition registration_order (s : Agent) : list string :=
  List.map fst (reactInternals s).

Definition enumeration_order (s : Agent) : list string :=
  List.map fst (enumerate (reactInternals s)).

(** [n] scroll notifications in a row. *)
Fixpoint scrolls (n : nat) : M unit :=
  match n with
  | 0 => ret tt
  | S n' => run! _onScroll in scrolls n'
  end.

(** The state [onUnmounted] leaves for an object registered under [i]. *)
Definition unmounted (a : addr) (i : string) (s : Agent) : Agent :=
  set_ids (delete a)
    (set_emitted (λ l, l ++ [Event "unmount" [VStr i]])
       (set_renderers (delete (KStr i))
          (set_roots (λ r, r ∖ {[KStr i]})
             (set_elementData (delete (KStr i)) s)))).

(** [send.updater && !!send.updater.forceUpdate], as a value. *)
Definition can_update (send : list (string * value)) : value :=
  let updater := default VUndef (lookup_prop "updater" send) in
  if truthy updater then
    match get updater "forceUpdate" with
    | Ret forceUpdate => VBool (truthy forceUpdate)
    | Throw _ => VUndef
    end
  else updater.

(** The last five statements of [make_send], from [send.id = id] on. *)
Definition finish_send (id : value) (send : list (string * value)) : list (string * value) :=
  let send := set_prop "id" id send in
  delete_prop "updater" (delete_prop "type" (set_prop "canUpdate" (can_update send) send)).

(** The fields [getId] leaves alone. *)
Definition registry_only (s s' : Agent) : Prop :=
  s' = set_reactElements (λ _, reactElements s')
         (set_ids (λ _, ids s') (set_guid_calls (guid_calls s') s)).

(** The snapshot stored under [id], when there is one the methods take
    for one. *)
Definition snapshot (s : Agent) (id : value) : option value :=
  match elementData s !! key_of id with
  | Some data => if truthy data then Some data else None
  | None => None
  end.

(** [obj.k] on a value whose properties can be read. *)
Definition field (obj : value) (k : string) : value :=
  match get obj k with
  | Ret v => v
  | Throw _ => VUndef
  end.

(** The tables [getNodeForID] reads are the same in [s] and [s']. *)
Definition same_tables (s s' : Agent) : Prop :=
  reactElements s' = reactElements s ∧ renderers s' = renderers s ∧
  reactInternals s' = reactInternals s.

(** Only the record of invocations differs between [s] and [s']. *)
Definition invoked_only (s s' : Agent) : Prop :=
  s' = set_invoked (λ _, invoked s') s.

(** The call the lookup of [renderer] makes, if its helpers have the
    function at all. *)
Definition lookup_call (s : Agent) (node : value) (renderer : string) : list invocation :=
  match get (default VUndef (lookup_prop renderer (reactInternals s)))
            "getReactElementFromNative" with
  | Ret (VFun f) => [Call f [node]]
  | _ => []
  end.

(** The calls made for the producers of [names], up to the first match. *)
Fixpoint tried (s : Agent) (node : value) (names : list string) : list invocation :=
  match names with
  | [] => []
  | renderer :: rest =>
      lookup_call s node renderer ++
      match element_match s node renderer with
      | Some _ => []
      | None => tried s node rest
      end
  end.

(** ** Sample data *)

(** A generator that counts: [g0], [g1], ... *)
Definition sample_guid (n : nat) : string := String.append "g" (pretty n).

(** The functions of a sample producer: a lookup of the native node, a
    lookup that throws, two lookups of components, and an updater. *)
Definition sample_call (f : addr) (args : list value) : outcome value :=
  match f with
  | Ext 20 => Ret (VObj (Ext 30) [])
  | Ext 21 => Throw (Thrown (VStr "unknown node"))
  | Ext 22 => Ret (VObj (Ext 1) [])
  | Ext 23 => Ret (VObj (Ext 2) [])
  | _ => Ret VUndef
  end.

Definition sample_root : value := VObj (Ext 1) [].

Definition sample_child : value := VObj (Ext 2) [].

Definition sample_data : value :=
  VObj (Ext 3) [("name", VStr "App"); ("children", VArr (Ext 4) [sample_child])].

Definition sample_app : value :=
  VObj (Ext 5) [("name", VStr "App"); ("children", VArr (Ext 6) [])].

Definition sample_input : value :=
  VObj (Ext 7)
    [("name", VStr "Input");
     ("props", VObj (Ext 8) [("value", VStr "a")]);
     ("updater", VObj (Ext 9) [("setInProps", VFun (Ext 24))])].

Definition sample_node : value := VObj (Ext 30) [].

Definition sample_helpers : value :=
  VObj (Ext 40)
    [("getNativeFromReactElement", VFun (Ext 20));
     ("getReactElementFromNative", VFun (Ext 22))].

Definition sample_helpers' : value :=
  VObj (Ext 41) [("getReactElementFromNative", VFun (Ext 23))].

Definition sample_thrower : value :=
  VObj (Ext 42) [("getReactElementFromNative", VFun (Ext 21))].

(** ** Every method *)

(** The calls of [op] and the methods besides them: [scrollToNode], the two
    selections from the page, and the [selected] command of the frontend. *)
Inductive method :=
| Core (o : op)
| ScrollToNode (id : value)
| SelectFromDOMNode (node quiet : value)
| SelectFromReactInstance (instance quiet : value)
| BridgeSelected (id : value).

Definition perform (c : method) : M unit :=
  match c with
  | Core o => exec o
  | ScrollToNode id => scrollToNode id
  | SelectFromDOMNode node quiet => selectFromDOMNode node quiet
  | SelectFromReactInstance instance quiet => selectFromReactInstance instance quiet
  | BridgeSelected id => on_bridge_selected id
  end.

Inductive reachable_all : Agent → Prop :=
| reachable_all_new g : reachable_all (new_Agent g)
| reachable_all_perform c s : reachable_all s → reachable_all (after (perform c) s).

Definition performs (cs : list method) (s : Agent) : Agent :=
  fold_left (λ s c, after (perform c) s) cs s.

(** [m] keeps [P]: from a state where [P] holds it leaves one where [P]
    holds, whether it returns or throws. *)
Definition keeps {A} (P : Agent → Prop) (m : M A) : Prop :=
  ∀ s, P s → P (after m s).

(** At most one refresh is pending, and the flag says whether one is. *)
Definition single_flight (s : Agent) : Prop :=
  frame_requests s = if _scrollUpdate s then 1 else 0.

(** Every identity that has a renderer has a snapshot. *)
Definition attributed_have_snapshots (s : Agent) : Prop :=
  ∀ k, is_Some (renderers s !! k) → is_Some (elementData s !! k).

(** The token of every registered object leads back to the object. *)
Definition tokens_lead_back (s : Agent) : Prop :=
  ∀ a t, ids s !! a = Some t →
         ∃ H, reactElements s !! KStr t = Some H ∧ ref_of H = Some a.

(** The registry, the element store and the table of renderers of [s'] are
    those of [s]. *)
Definition same_store (s s' : Agent) : Prop :=
  ids s' = ids s ∧ reactElements s' = reactElements s ∧ guid_calls s' = guid_calls s ∧
  elementData s' = elementData s ∧ roots s' = roots s ∧ renderers s' = renderers s ∧
  reactInternals s' = reactInternals s.

(** The methods the frontend's commands and the browser's events run. *)
Definition is_command (c : method) : bool :=
  match c with
  | Core (Highlight _) | Core (HighlightMany _)
  | Core (SetProps _ _ _) | Core (SetState _ _ _) | Core (SetContext _ _ _)
  | Core (MakeGlobal _ _) | Core Scroll | Core AnimationFrame
  | ScrollToNode _ | BridgeSelected _ => true
  | _ => false
  end.

(** [canUpdate] as the snapshot decides it: the falsy updater itself, or
    whether the updater has a [forceUpdate]. *)
Definition canUpdate_for (data : value) : value :=
  let updater := default VUndef (lookup_prop "updater" (own_props data)) in
  if truthy updater then VBool (truthy (field updater "forceUpdate")) else updater.

(** The fields [make_send] writes or deletes. *)
Definition rewritten : list string := ["children"; "id"; "canUpdate"; "type"; "updater"].

(** The element [scrollToNode] scrolls: the node if it is an element, its
    parent otherwise. *)
Definition scroll_target (node : value) : value :=
  if strict_equal (field node "nodeType") ELEMENT_NODE then node
  else field node "parentElement".

(** The function it scrolls with: [scrollIntoViewIfNeeded] if the element
    has it, [scrollIntoView] if it has that, none otherwise. *)
Definition scroll_method (element : value) : option addr :=
  match field element "scrollIntoViewIfNeeded" with
  | VFun f => Some f
  | _ =>
      match field element "scrollIntoView" with
      | VFun g => Some g
      | _ => None
      end
  end.

(** A page for the sample producer: an element that can scroll both ways,
    a text node inside it, and the native lookup that finds the text node. *)
Definition sample_element : value :=
  VObj (Ext 31)
    [("nodeType", VNum 1);
     ("scrollIntoViewIfNeeded", VFun (Ext 25));
     ("scrollIntoView", VFun (Ext 26))].

Definition sample_text : value :=
  VObj (Ext 32) [("nodeType", VNum 3); ("parentElement", sample_element)].

Definition sample_page_call (f : addr) (args : list value) : outcome value :=
  match f with
  | Ext 27 => Ret sample_text
  | _ => sample_call f args
  end.

Definition sample_page_helpers : value :=
  VObj (Ext 43) [("getNativeFromReactElement", VFun (Ext 27))].

Definition sample_instance : value := VObj (Ext 10) [].

Definition sample_component : value :=
  VObj (Ext 11)
    [("name", VStr "Button"); ("type", VFun (Ext 12));
     ("updater", VObj (Ext 13) [("forceUpdate", VFun (Ext 28))]);
     ("publicInstance", sample_instance)].

(** ** The capabilities of the page *)

Definition and_then {A B} (o : outcome A) (k : A → outcome B) : outcome B :=
  match o with
  | Ret a => k a
  | Throw e => Throw e
  end.

(** [assign(target, source)]: the own properties of the source, in the
    order of enumeration, written over those of the target. *)
Definition assign (target : list (string * value)) (source : value) : list (string * value) :=
  fold_left (λ ps p, set_prop (fst p) (snd p) ps) (own_props source) target.

(** [window.document && typeof window.document.createElement === 'function'] *)
Definition isReactDOM_of (window : value) : outcome value :=
  and_then (get window "document") (λ document,
    if truthy document then
      and_then (get window "document") (λ document',
      and_then (get document' "createElement") (λ createElement,
        Ret (VBool (is_function createElement))))
    else Ret document).

(** [isReactDOM && typeof window.document.body.scrollIntoView === 'function'] *)
Definition scroll_of (window isReactDOM : value) : outcome value :=
  if truthy isReactDOM then
    and_then (get window "document") (λ document,
    and_then (get document "body") (λ body,
    and_then (get body "scrollIntoView") (λ scrollIntoView,
      Ret (VBool (is_function scrollIntoView)))))
  else Ret isReactDOM.

(** [this.capabilities] as the constructor computes it from the page and
    from what its caller passes. *)
Definition capabilities_of (window capabilities : value) : outcome (list (string * value)) :=
  and_then (isReactDOM_of window) (λ isReactDOM,
  and_then (scroll_of window isReactDOM) (λ scroll,
    Ret (assign [("scroll", scroll); ("dom", isReactDOM); ("editTextContent", VBool false)]
           capabilities))).

(** ** The selection of the page *)

(** The agent together with what the handlers of [addBridge] keep beside
    its tables: [this._prevSelected], which the constructor sets to [null],
    and the properties of [window.__REACT_DEVTOOLS_GLOBAL_HOOK__]. *)
Record Inspector := mkInspector {
  agent : Agent;
  _prevSelected : value;
  hook : gmap string value
}.

Definition new_Inspector (window_global hook_props : gmap string value) : Inspector :=
  mkInspector (new_Agent window_global) VNull hook_props.

(** A method of the agent, run by a handler. *)
Definition on_agent {A} (m : M A) (p : Inspector) : outcome A * Inspector :=
  let '(r, a) := m (agent p) in
  (r, mkInspector a (_prevSelected p) (hook p)).

Definition set_hook (k : string) (v : value) (p : Inspector) : Inspector :=
  mkInspector (agent p) (_prevSelected p) (<[k := v]> (hook p)).

(** The handler of [putSelectedNode]:
    [hook.$node = this.getNodeForID(id)]. *)
Definition putSelectedNode (id : value) (p : Inspector) : outcome unit * Inspector :=
  match on_agent (getNodeForID id) p with
  | (Ret node, p') => (Ret tt, set_hook "$node" node p')
  | (Throw e, p') => (Throw e, p')
  end.

(** The handler of [putSelectedInstance]. *)
Definition putSelectedInstance (id : value) (p : Inspector) : outcome unit * Inspector :=
  let node := default VUndef (elementData (agent p) !! key_of id) in
  if truthy node then
    match get node "publicInstance" with
    | Ret publicInstance =>
        if truthy publicInstance then (Ret tt, set_hook "$inst" publicInstance p)
        else (Ret tt, set_hook "$inst" VNull p)
    | Throw e => (Throw e, p)
    end
  else (Ret tt, set_hook "$inst" VNull p).

(** The handler of [checkSelection]. *)
Definition checkSelection (p : Inspector) : outcome unit * Inspector :=
  let newSelected := default VUndef (hook p !! "$0") in
  if negb (strict_equal newSelected (_prevSelected p)) then
    let p1 := mkInspector (agent p) newSelected (hook p) in
    let sentSelected := default VUndef (hook p1 !! "$node") in
    if negb (strict_equal newSelected sentSelected) then
      on_agent (selectFromDOMNode newSelected (VBool true)) p1
    else (Ret tt, p1)
  else (Ret tt, p).

(** The object [window] of a page that has a document and a body. *)
Definition sample_window : value :=
  VObj (Ext 60)
    [("document",
      VObj (Ext 61)
        [("createElement", VFun (Ext 62));
         ("body", VObj (Ext 63) [("scrollIntoView", VFun (Ext 26))])])].

(** A page whose document has no body yet. *)
Definition sample_early_window : value :=
  VObj (Ext 60)
    [("document", VObj (Ext 61) [("createElement", VFun (Ext 62)); ("body", VNull)])].

(** ** Computations, step by step *)

Lemma after_bind {A B} (m : M A) (k : A → M B) s :
  after (bind m k) s =
  match result m s with
  | Ret a => after (k a) (after m s)
  | Throw _ => after m s
  end.
Proof.
  unfold after, result, bind. destruct (m s) as [[a|e] s']; reflexivity.
Qed.


Lemma bind_ret_eq {A B} (m : M A) (k : A → M B) s a s' :
  m s = (Ret a, s') → bind m k s = k a s'.
Proof. intros E. unfold bind. rewrite E. reflexivity. Qed.


Lemma fresh_eq s : fresh s = (Ret (Loc (allocs s)), set_allocs (S (allocs s)) s).
Proof. reflexivity. Qed.

Lemma gets_eq {A} (f : Agent → A) s : gets f s = (Ret (f s), s).
Proof. reflexivity. Qed.


(** ** The registry along a computation *)

Lemma tracks_ret drop {A} (a : A) : tracks drop (ret a).
Proof. intros s. apply rtc_refl. Qed.

Lemma tracks_throw drop {A} e : tracks drop (@throw A e).
Proof. intros s. apply rtc_refl. Qed.

Lemma tracks_lift drop {A} (o : outcome A) : tracks drop (lift o).
Proof. intros s. apply rtc_refl. Qed.

Lemma tracks_gets drop {A} (f : Agent → A) : tracks drop (gets f).
Proof. intros s. apply rtc_refl. Qed.

Lemma tracks_modify drop (f : Agent → Agent) :
  (∀ s, ids (f s) = ids s) → (∀ s, guid_calls (f s) = guid_calls s) →
  tracks drop (modify f).
Proof.
  intros Hi Hg s. apply rtc_once. apply registry_same; [apply Hi | apply Hg].
Qed.

Lemma tracks_bind drop {A B} (m : M A) (k : A → M B) :
  tracks drop m → (∀ a, tracks drop (k a)) → tracks drop (bind m k).
Proof.
  intros Hm Hk s. rewrite after_bind.
  destruct (result m s) as [a|e]; [|apply Hm].
  eapply rtc_trans; [apply Hm | apply Hk].
Qed.

Lemma tracks_try_or drop {A} (m : M A) (d : A) : tracks drop m → tracks drop (try_or m d).
Proof.
  intros Hm s. specialize (Hm s). unfold after, try_or in *.
  destruct (m s) as [[a|e] s']; exact Hm.
Qed.

Lemma tracks_fresh drop : tracks drop fresh.
Proof. intros s. apply rtc_once. apply registry_same; reflexivity. Qed.

Lemma tracks_getId drop element : tracks drop (getId element).
Proof.
  intros s. unfold getId. destruct (ref_of element) as [a|]; [|apply rtc_refl].
  unfold after, bind, gets. simpl. destruct (ids s !! a) as [t|] eqn:E; simpl.
  - apply rtc_refl.
  - apply rtc_once. apply (registry_alloc _ _ _ a); [exact E | reflexivity | reflexivity].
Qed.


Create HintDb tracks.

Ltac tracks_step :=
  first
    [ apply tracks_ret | apply tracks_throw | apply tracks_lift | apply tracks_gets
    | apply tracks_fresh | apply tracks_getId
    | apply tracks_modify; intros; reflexivity
    | solve [auto with tracks]
    | apply tracks_try_or
    | apply tracks_bind; [|intros ?] ].

Ltac tracks_cases :=
  match goal with
  | |- tracks _ (if ?b then _ else _) => destruct b
  | |- tracks _ (match ?x with _ => _ end) => destruct x
  end.

Ltac solve_tracks := repeat (first [ tracks_step | tracks_cases ]).

Lemma tracks_emit drop name args : tracks drop (emit name args).
Proof. unfold emit, on_selected. solve_tracks. Qed.

Lemma tracks_call drop f args : tracks drop (call f args).
Proof. unfold call. solve_tracks. Qed.

#[local] Hint Resolve tracks_emit tracks_call : tracks.

Lemma tracks_map_getId drop items : tracks drop (map_getId items).
Proof. induction items as [|c rest IH]; simpl; solve_tracks. Qed.

#[local] Hint Resolve tracks_map_getId : tracks.

Lemma tracks_make_send drop id data : tracks drop (make_send id data).
Proof. unfold make_send, translate_children, canUpdate_of, call_map. solve_tracks. Qed.

Lemma tracks_getNodeForID drop id : tracks drop (getNodeForID id).
Proof. unfold getNodeForID. solve_tracks. Qed.

#[local] Hint Resolve tracks_make_send tracks_getNodeForID : tracks.

Lemma tracks_push_nodes drop ids nodes : tracks drop (push_nodes ids nodes).
Proof.
  revert nodes. induction ids as [|id rest IH]; intros nodes; cbn [push_nodes]; solve_tracks.
Qed.

Lemma tracks_getIDForNode_loop drop names component node :
  tracks drop (getIDForNode_loop names component node).
Proof.
  revert component. induction names as [|r rest IH]; intros component;
    cbn [getIDForNode_loop]; solve_tracks.
Qed.

Lemma tracks_set_in drop slot warning id path v : tracks drop (set_in slot warning id path v).
Proof. unfold set_in, console_warn. solve_tracks. Qed.

Lemma tracks_run_requests drop n : tracks drop (run_requests n).
Proof.
  induction n as [|n IH]; cbn [run_requests]; unfold _updateScroll; solve_tracks.
Qed.

#[local] Hint Resolve tracks_push_nodes tracks_getIDForNode_loop tracks_set_in
  tracks_run_requests : tracks.

Lemma tracks_exec o : tracks (forgets o) (exec o).
Proof.
  destruct o; cbn [exec].
  - unfold setReactInternals. solve_tracks.
  - unfold addRoot. solve_tracks.
  - unfold onMounted. solve_tracks.
  - unfold onUpdated. solve_tracks.
  - unfold onUnmounted.
    apply tracks_bind; [apply tracks_getId|intros id].
    repeat (apply tracks_bind;
            [first [apply tracks_emit | apply tracks_modify; intros; reflexivity]|intros _]).
    destruct component; try apply tracks_ret;
      intros s; apply rtc_once; apply (registry_forget _ _ _ a); reflexivity.
  - unfold highlight. solve_tracks.
  - unfold highlightMany. solve_tracks.
  - unfold getIDForNode. solve_tracks.
  - apply tracks_set_in.
  - apply tracks_set_in.
  - apply tracks_set_in.
  - unfold _makeGlobal, console_log. solve_tracks.
  - unfold _onScroll, requestAnimationFrame. solve_tracks.
  - unfold animation_frame. solve_tracks.
Qed.

Lemma run_snoc ops o s : run (ops ++ [o]) s = after (exec o) (run ops s).
Proof. unfold run. rewrite fold_left_app. reflexivity. Qed.

Lemma registry_steps_weaken (drop drop' : addr → Prop) s s' :
  (∀ a, drop a → drop' a) →
  rtc (registry_step drop) s s' → rtc (registry_step drop') s s'.
Proof.
  intros Hd Hm. induction Hm as [|x y z Hxy _ IH]; [apply rtc_refl|].
  eapply rtc_l; [|exact IH].
  destruct Hxy as [Hi Hg|a Hn Hi Hg|a Ha Hi Hg].
  - apply registry_same; assumption.
  - apply (registry_alloc _ _ _ a); assumption.
  - apply (registry_forget _ _ _ a); auto.
Qed.

(** A run forgets only what one of its calls unmounts. *)
Lemma tracks_run ops s :
  rtc (registry_step (λ a, Exists (λ o, forgets o a) ops)) s (run ops s).
Proof.
  induction ops as [|o ops IH] using rev_ind; [apply rtc_refl|].
  rewrite run_snoc. eapply rtc_trans.
  - eapply registry_steps_weaken; [|exact IH].
    intros a Ha. apply Exists_app. left. exact Ha.
  - eapply registry_steps_weaken; [|apply tracks_exec].
    intros a Ha. apply Exists_app. right. apply Exists_cons_hd. exact Ha.
Qed.

Lemma reachable_run g ops : reachable (run ops (new_Agent g)).
Proof.
  induction ops as [|o ops IH] using rev_ind; [apply reachable_new|].
  rewrite run_snoc. apply reachable_exec. exact IH.
Qed.

Lemma registry_step_kept drop s s' a t :
  ¬ drop a → registry_step drop s s' → ids s !! a = Some t → ids s' !! a = Some t.
Proof.
  intros Hk [Hi Hg|b Hn Hi Hg|b Hb Hi Hg] E; rewrite Hi.
  - exact E.
  - rewrite lookup_insert_ne; [exact E|]. intros ->. congruence.
  - rewrite lookup_delete_ne; [exact E|]. intros ->. contradiction.
Qed.

Lemma registry_steps_kept drop s s' a t :
  ¬ drop a → rtc (registry_step drop) s s' → ids s !! a = Some t → ids s' !! a = Some t.
Proof.
  intros Hk Hs. induction Hs as [|x y z Hxy _ IH]; [auto|].
  intros E. apply IH. eapply registry_step_kept; eassumption.
Qed.


Section Unique.

(** The generator never repeats a token. *)
Hypothesis guid_unique : ∀ m n, guid m = guid n → m = n.

Lemma registry_ok_step drop s s' :
  registry_step drop s s' → registry_ok s → registry_ok s'.
Proof.
  intros [Hi Hg|b Hn Hi Hg|b Hb Hi Hg] [Hbound Hinj]; split; rewrite ?Hi, ?Hg.
  - exact Hbound.
  - exact Hinj.
  - intros a t E. destruct (decide (b = a)) as [->|Hne].
    + rewrite lookup_insert_eq in E. injection E as <-. exists (guid_calls s). split; [lia|reflexivity].
    + rewrite lookup_insert_ne in E by exact Hne.
      destruct (Hbound a t E) as (n & Hn' & ->). exists n. split; [lia|reflexivity].
  - intros a c t Ea Ec.
    destruct (decide (b = a)) as [Hba|Hna]; destruct (decide (b = c)) as [Hbc|Hnc];
      subst.
    + reflexivity.
    + rewrite lookup_insert_eq in Ea. rewrite lookup_insert_ne in Ec by exact Hnc.
      injection Ea as <-. destruct (Hbound c _ Ec) as (n & Hn' & E').
      apply guid_unique in E'. lia.
    + rewrite lookup_insert_eq in Ec. rewrite lookup_insert_ne in Ea by exact Hna.
      injection Ec as <-. destruct (Hbound a _ Ea) as (n & Hn' & E').
      apply guid_unique in E'. lia.
    + rewrite lookup_insert_ne in Ea by exact Hna. rewrite lookup_insert_ne in Ec by exact Hnc.
      eapply Hinj; eassumption.
  - intros a t E. apply lookup_delete_Some in E as [_ E]. eapply Hbound; eassumption.
  - intros a c t Ea Ec. apply lookup_delete_Some in Ea as [_ Ea].
    apply lookup_delete_Some in Ec as [_ Ec]. eapply Hinj; eassumption.
Qed.

Lemma registry_ok_steps drop s s' :
  rtc (registry_step drop) s s' → registry_ok s → registry_ok s'.
Proof.
  intros Hs. induction Hs as [|x y z Hxy _ IH]; [auto|].
  intros Hx. apply IH. eapply registry_ok_step; eassumption.
Qed.

Lemma registry_ok_new g : registry_ok (new_Agent g).
Proof.
  split.
  - intros a t E. simpl in E. rewrite lookup_empty in E. discriminate.
  - intros a b t E. simpl in E. rewrite lookup_empty in E. discriminate.
Qed.

Lemma registry_ok_reachable s : reachable s → registry_ok s.
Proof.
  intros Hr. induction Hr as [g|o s _ IH]; [apply registry_ok_new|].
  eapply registry_ok_steps; [apply tracks_exec | exact IH].
Qed.


End Unique.

(** ** [getId] *)

Lemma getId_primitive X s : ref_of X = None → getId X s = (Ret X, s).
Proof. intros E. unfold getId. rewrite E. reflexivity. Qed.

Lemma getId_known H a t s :
  ref_of H = Some a → ids s !! a = Some t → getId H s = (Ret (VStr t), s).
Proof.
  intros E Ht. unfold getId. rewrite E. unfold bind, gets. rewrite Ht. reflexivity.
Qed.

Lemma getId_new H a s :
  ref_of H = Some a → ids s !! a = None →
  getId H s =
  (Ret (VStr (guid (guid_calls s))),
   set_reactElements (insert (KStr (guid (guid_calls s))) H)
     (set_ids (insert a (guid (guid_calls s)))
        (set_guid_calls (S (guid_calls s)) s))).
Proof.
  intros E Ht. unfold getId. rewrite E. unfold bind, gets. rewrite Ht. reflexivity.
Qed.

(** [getId] returns, and an object is registered under the token it got. *)
Lemma getId_registered H a s :
  ref_of H = Some a →
  ∃ t, result (getId H) s = Ret (VStr t) ∧ ids (after (getId H) s) !! a = Some t.
Proof.
  intros E. destruct (ids s !! a) as [t|] eqn:Ht.
  - exists t. unfold result, after. rewrite (getId_known H a t s E Ht). auto.
  - exists (guid (guid_calls s)). unfold result, after. rewrite (getId_new H a s E Ht).
    split; [reflexivity|]. simpl. apply lookup_insert_eq.
Qed.

Lemma getId_returns element s : ∃ i, result (getId element) s = Ret i.
Proof.
  destruct (ref_of element) as [a|] eqn:E.
  - destruct (getId_registered element a s E) as (t & Ht & _). eauto.
  - exists element. unfold result. rewrite getId_primitive by exact E. reflexivity.
Qed.


Lemma object_like_false X : object_like X = false → ref_of X = None.
Proof. unfold object_like. destruct (ref_of X); [discriminate|reflexivity]. Qed.

(** ** [onUnmounted] *)

Lemma onUnmounted_known H a i s :
  ref_of H = Some a → ids s !! a = Some i →
  onUnmounted H s = (Ret tt, unmounted a i s).
Proof.
  intros E Hi. unfold onUnmounted.
  rewrite (bind_ret_eq _ _ _ _ _ (getId_known H a i s E Hi)).
  destruct H; try discriminate; injection E as ->; reflexivity.
Qed.

(** ** The contract of the identity registry *)

(** C2. [getId] returns an input that is not an object unchanged; the token
    of an object stays the same over every run that does not unmount it;
    and two distinct registered objects hold different tokens, which are
    what [getId] returns for them -- provided [guid] never repeats. *)
Theorem getId_contract
    (X H H1 H2 : value) (a a1 a2 : addr) (t1 t2 : string)
    (s s0 : Agent) (ops : list op) :
  (∀ m n, guid m = guid n → m = n) →
  object_like X = false →
  ref_of H = Some a →
  Forall (λ o, ¬ forgets o a) ops →
  reachable s0 →
  ref_of H1 = Some a1 → ref_of H2 = Some a2 → a1 ≠ a2 →
  ids s0 !! a1 = Some t1 → ids s0 !! a2 = Some t2 →
  getId X s = (Ret X, s) ∧
  result (getId H) (run ops (after (getId H) s)) = result (getId H) s ∧
  (result (getId H1) s0 = Ret (VStr t1) ∧
   result (getId H2) s0 = Ret (VStr t2) ∧
   t1 ≠ t2).
Proof.
  intros Huniq HX HH Hops Hreach E1 E2 Hne L1 L2. split; [|split].
  - apply getId_primitive, object_like_false, HX.
  - destruct (getId_registered H a s HH) as (t & Hr & Hl). rewrite Hr.
    assert (Hkept : ids (run ops (after (getId H) s)) !! a = Some t).
    { eapply registry_steps_kept; [|apply tracks_run|exact Hl].
      intros Hex. apply Exists_exists in Hex as (o & Ho & Hf).
      rewrite Forall_forall in Hops. exact (Hops o Ho Hf). }
    unfold result. rewrite (getId_known H a t _ HH Hkept). reflexivity.
  - unfold result. rewrite (getId_known H1 a1 t1 s0 E1 L1), (getId_known H2 a2 t2 s0 E2 L2).
    repeat split; try reflexivity.
    intros ->. apply Hne.
    destruct (registry_ok_reachable Huniq s0 Hreach) as [_ Hinj].
    eapply Hinj; eassumption.
Qed.

(** C3. Unmounting an object registered under [i] leaves no snapshot, no
    root and no renderer under [i], and the next [getId] of the object
    allocates a token that is not [i] -- provided [guid] never repeats. *)
Theorem onUnmounted_clears (H : value) (a : addr) (i : string) (s : Agent) :
  (∀ m n, guid m = guid n → m = n) →
  reachable s →
  ref_of H = Some a →
  ids s !! a = Some i →
  let s' := after (onUnmounted H) s in
  (result (onUnmounted H) s = Ret tt ∧
   elementData s' !! KStr i = None ∧
   (KStr i ∉ roots s') ∧
   renderers s' !! KStr i = None ∧
   ids s' !! a = None ∧
   ∃ j, result (getId H) s' = Ret (VStr j) ∧
        j = guid (guid_calls s') ∧
        guid_calls (after (getId H) s') = S (guid_calls s') ∧
        ids (after (getId H) s') !! a = Some j ∧
        j ≠ i).
Proof.
  intros Huniq Hreach E Hi s'. subst s'. unfold result, after.
  rewrite (onUnmounted_known H a i s E Hi). cbn [fst snd].
  assert (Hnone : ids (unmounted a i s) !! a = None) by (simpl; apply lookup_delete_eq).
  repeat split.
  - simpl. apply lookup_delete_eq.
  - simpl. rewrite elem_of_difference, elem_of_singleton. intros [_ Hn]. apply Hn. reflexivity.
  - simpl. apply lookup_delete_eq.
  - exact Hnone.
  - exists (guid (guid_calls (unmounted a i s))).
    rewrite (getId_new H a _ E Hnone). cbn [fst snd]. repeat split.
    + simpl. apply lookup_insert_eq.
    + simpl. intros Heq.
      destruct (registry_ok_reachable Huniq s Hreach) as [Hbound _].
      destruct (Hbound a i Hi) as (n & Hn & ->).
      apply Huniq in Heq. lia.
Qed.

(** ** Properties of objects *)

Lemma lookup_set_prop_eq {A} k (v : A) ps : lookup_prop k (set_prop k v ps) = Some v.
Proof.
  unfold lookup_prop. induction ps as [|p ps IH]; simpl.
  - rewrite String.eqb_refl. reflexivity.
  - destruct (String.eqb (fst p) k) eqn:E; simpl.
    + rewrite String.eqb_refl. reflexivity.
    + rewrite E. exact IH.
Qed.

Lemma lookup_set_prop_ne {A} k k' (v : A) ps :
  k ≠ k' → lookup_prop k' (set_prop k v ps) = lookup_prop k' ps.
Proof.
  intros Hne. apply String.eqb_neq in Hne.
  unfold lookup_prop. induction ps as [|p ps IH]; simpl.
  - rewrite Hne. reflexivity.
  - destruct (String.eqb (fst p) k) eqn:E; simpl.
    + apply String.eqb_eq in E. rewrite E, Hne. reflexivity.
    + destruct (String.eqb (fst p) k'); [reflexivity|exact IH].
Qed.

Lemma lookup_delete_prop_eq {A} k (ps : list (string * A)) :
  lookup_prop k (delete_prop k ps) = None.
Proof.
  unfold lookup_prop, delete_prop. induction ps as [|p ps IH]; simpl; [reflexivity|].
  destruct (String.eqb (fst p) k) eqn:E; simpl; [exact IH|].
  rewrite E. exact IH.
Qed.

Lemma lookup_delete_prop_ne {A} k k' (ps : list (string * A)) :
  k ≠ k' → lookup_prop k' (delete_prop k ps) = lookup_prop k' ps.
Proof.
  intros Hne. unfold lookup_prop, delete_prop.
  induction ps as [|p ps IH]; simpl; [reflexivity|].
  destruct (String.eqb (fst p) k) eqn:E; simpl.
  - apply String.eqb_eq in E. apply String.eqb_neq in Hne. rewrite E, Hne. exact IH.
  - destruct (String.eqb (fst p) k'); [reflexivity|exact IH].
Qed.

(** Reading a property of a truthy value never throws. *)
Lemma get_truthy obj k : truthy obj = true → ∃ v, get obj k = Ret v.
Proof. destruct obj; simpl; intros E; try discriminate; eauto. Qed.

(** ** The payload of [mount] and [update] *)

Lemma registry_only_refl s : registry_only s s.
Proof. destruct s. reflexivity. Qed.

Lemma registry_only_trans s1 s2 s3 :
  registry_only s1 s2 → registry_only s2 s3 → registry_only s1 s3.
Proof.
  unfold registry_only. intros E12 E23. rewrite E23 at 1. rewrite E12 at 1.
  reflexivity.
Qed.

Lemma getId_registry_only element s : registry_only s (after (getId element) s).
Proof.
  destruct (ref_of element) as [a|] eqn:E.
  - destruct (ids s !! a) as [t|] eqn:Ht; unfold after.
    + rewrite (getId_known _ _ _ _ E Ht). apply registry_only_refl.
    + rewrite (getId_new _ _ _ E Ht). reflexivity.
  - unfold after. rewrite (getId_primitive _ _ E). apply registry_only_refl.
Qed.

Lemma canUpdate_of_ret send s : canUpdate_of send s = (Ret (can_update send), s).
Proof.
  unfold canUpdate_of, can_update. cbv zeta.
  destruct (truthy (default VUndef (lookup_prop "updater" send))) eqn:E; [|reflexivity].
  destruct (get_truthy _ "forceUpdate" E) as (f & Hf).
  unfold bind, lift. rewrite Hf. reflexivity.
Qed.

Lemma make_send_eq id data s :
  make_send id data s =
  match translate_children (own_props data) (set_allocs (S (allocs s)) s) with
  | (Ret send, s') => (Ret (VObj (Loc (allocs s)) (finish_send id send)), s')
  | (Throw e, s') => (Throw e, s')
  end.
Proof.
  unfold make_send. unfold bind at 1. unfold fresh at 1.
  unfold bind at 1.
  destruct (translate_children (own_props data) (set_allocs (S (allocs s)) s))
    as [[send|e] s']; [|reflexivity].
  cbv zeta. rewrite (bind_ret_eq _ _ _ _ _ (canUpdate_of_ret _ s')). reflexivity.
Qed.

Lemma registry_steps_identity_in s s' c i :
  rtc (registry_step nothing) s s' → identity_in s c i → identity_in s' c i.
Proof.
  intros Hs. unfold identity_in. destruct (ref_of c) as [a|]; [|auto].
  intros (t & -> & Ht). exists t. split; [reflexivity|].
  eapply registry_steps_kept; [|exact Hs|exact Ht]. intros [].
Qed.

(** Mapping [getId] over the children returns, touches the registry only,
    and yields the identity of each child. *)
Lemma map_getId_spec items s :
  ∃ tokens s',
    map_getId items s = (Ret tokens, s') ∧
    registry_only s s' ∧
    Forall2 (identity_in s') items tokens.
Proof.
  revert s. induction items as [|c rest IH]; intros s.
  - exists [], s. repeat split; [apply registry_only_refl|constructor].
  - cbn [map_getId].
    destruct (getId c s) as [o s1] eqn:E1.
    assert (Hr : ∃ i, o = Ret i).
    { destruct (getId_returns c s) as (i & Hi). unfold result in Hi. rewrite E1 in Hi. eauto. }
    destruct Hr as (i & ->).
    destruct (IH s1) as (tokens & s2 & E2 & Hro & Hall).
    exists (i :: tokens), s2. split; [|split].
    + rewrite (bind_ret_eq _ _ _ _ _ E1), (bind_ret_eq _ _ _ _ _ E2). reflexivity.
    + eapply registry_only_trans; [|exact Hro].
      pose proof (getId_registry_only c s) as Hg. unfold after in Hg. rewrite E1 in Hg. exact Hg.
    + constructor; [|exact Hall].
      apply (registry_steps_identity_in s1).
      * pose proof (tracks_map_getId nothing rest s1) as Ht. unfold after in Ht.
        rewrite E2 in Ht. exact Ht.
      * unfold identity_in. destruct (ref_of c) as [a|] eqn:Ec.
        -- destruct (getId_registered c a s Ec) as (t & Hres & Hl).
           unfold result, after in Hres, Hl. rewrite E1 in Hres, Hl. simpl in Hres, Hl.
           injection Hres as ->. eauto.
        -- rewrite (getId_primitive _ _ Ec) in E1. congruence.
Qed.

Lemma translate_children_array send c items s :
  lookup_prop "children" send = Some (VArr c items) →
  ∃ tokens s2,
    map_getId items (set_allocs (S (allocs s)) s) = (Ret tokens, s2) ∧
    translate_children send s =
    (Ret (set_prop "children" (VArr (Loc (allocs s2)) tokens) send),
     set_allocs (S (allocs s2)) s2).
Proof.
  intros Hc.
  destruct (map_getId_spec items (set_allocs (S (allocs s)) s)) as (tokens & s2 & E & _ & _).
  exists tokens, s2. split; [exact E|].
  unfold translate_children. rewrite Hc.
  unfold call_map, bind, lift, fresh, ret. cbn. rewrite E. reflexivity.
Qed.

Lemma registry_only_fields s s' :
  registry_only s s' →
  elementData s' = elementData s ∧ emitted s' = emitted s ∧ allocs s' = allocs s ∧
  renderers s' = renderers s ∧ roots s' = roots s.
Proof. intros ->. repeat split. Qed.

Lemma identity_in_ids s s' c i : ids s' = ids s → identity_in s c i → identity_in s' c i.
Proof. unfold identity_in. intros ->. auto. Qed.

Lemma identity_in_not_object s c i : identity_in s c i → object_like i = false.
Proof.
  unfold identity_in, object_like. destruct (ref_of c) as [a|] eqn:E.
  - intros (t & -> & _). reflexivity.
  - intros ->. rewrite E. reflexivity.
Qed.

Lemma emit_other name args s :
  String.eqb name "selected" = false →
  emit name args s = (Ret tt, set_emitted (λ l, l ++ [Event name args]) s).
Proof. intros E. unfold emit, bind, modify. rewrite E. reflexivity. Qed.

Lemma get_finish_send_children a id send v :
  lookup_prop "children" send = Some v →
  get (VObj a (finish_send id send)) "children" = Ret v.
Proof.
  intros E. unfold finish_send. cbn [get].
  rewrite lookup_delete_prop_ne by discriminate.
  rewrite lookup_delete_prop_ne by discriminate.
  rewrite lookup_set_prop_ne by discriminate.
  rewrite lookup_set_prop_ne by discriminate.
  rewrite E. reflexivity.
Qed.

(** What [make_send] and the [emit] after it do for a snapshot whose
    children are an array. *)
Lemma make_send_emit name id data c items s :
  String.eqb name "selected" = false →
  lookup_prop "children" (own_props data) = Some (VArr c items) →
  ∃ payload tokens c' s',
    bind (make_send id data) (λ send, emit name [send]) s = (Ret tt, s') ∧
    emitted s' = emitted s ++ [Event name [payload]] ∧
    elementData s' = elementData s ∧
    get payload "children" = Ret (VArr c' tokens) ∧
    Forall2 (identity_in s') items tokens.
Proof.
  intros Hname Hc.
  destruct (translate_children_array _ c items (set_allocs (S (allocs s)) s) Hc)
    as (tokens & s2 & Emap & Etr).
  destruct (map_getId_spec items (set_allocs (S (allocs (set_allocs (S (allocs s)) s)))
                                    (set_allocs (S (allocs s)) s)))
    as (tokens' & s2' & Emap' & Hro & Hall).
  rewrite Emap in Emap'. injection Emap' as <- <-.
  destruct (registry_only_fields _ _ Hro) as (Hed & Hem & _).
  eexists _, tokens, _, _. split; [|split; [|split; [|split]]].
  - unfold bind at 1. rewrite make_send_eq, Etr. apply emit_other, Hname.
  - simpl. rewrite Hem. reflexivity.
  - simpl. rewrite Hed. reflexivity.
  - apply get_finish_send_children. apply lookup_set_prop_eq.
  - eapply Forall2_impl; [exact Hall|]. intros x y. apply identity_in_ids. reflexivity.
Qed.

(** ** Snapshots and payloads *)

(** C1, as amended.  For a snapshot whose children are an array,
    [onMounted] and [onUpdated] store the snapshot as the producer supplied
    it, raw children included; what holds identities only is the payload
    they emit, in which every child that is an object has been replaced by
    its token and every other child is left as it is. *)
Theorem lifecycle_children
    (renderer : string) (H data : value) (c : addr) (items : list value) (s : Agent) :
  lookup_prop "children" (own_props data) = Some (VArr c items) →
  (∃ id payload c' tokens,
     let s' := after (onMounted renderer H data) s in
     result (onMounted renderer H data) s = Ret tt ∧
     result (getId H) s = Ret id ∧
     elementData s' !! key_of id = Some data ∧
     emitted s' = emitted s ++ [Event "mount" [payload]] ∧
     get payload "children" = Ret (VArr c' tokens) ∧
     Forall2 (identity_in s') items tokens ∧
     Forall (λ i, object_like i = false) tokens) ∧
  (∃ id payload c' tokens,
     let s' := after (onUpdated H data) s in
     result (onUpdated H data) s = Ret tt ∧
     result (getId H) s = Ret id ∧
     elementData s' !! key_of id = Some data ∧
     emitted s' = emitted s ++ [Event "update" [payload]] ∧
     get payload "children" = Ret (VArr c' tokens) ∧
     Forall2 (identity_in s') items tokens ∧
     Forall (λ i, object_like i = false) tokens).
Proof.
  intros Hc.
  destruct (getId_returns H s) as (id & Hid).
  destruct (getId H s) as [o s1] eqn:E1. unfold result in Hid. rewrite E1 in Hid.
  simpl in Hid. subst o.
  pose proof (getId_registry_only H s) as Hro. unfold after in Hro. rewrite E1 in Hro.
  cbn [snd] in Hro.
  destruct (registry_only_fields _ _ Hro) as (_ & Hem & _).
  split.
  - destruct (make_send_emit "mount" id data c items
                (set_elementData (insert (key_of id) data)
                   (set_renderers (insert (key_of id) renderer) s1)) eq_refl Hc)
      as (payload & tokens & c' & s' & Erun & Hemit & Hstore & Hget & Hall).
    assert (Eall : onMounted renderer H data s = (Ret tt, s')).
    { unfold onMounted. rewrite (bind_ret_eq _ _ _ _ _ E1). exact Erun. }
    exists id, payload, c', tokens. unfold result, after. rewrite Eall, E1. cbn [fst snd].
    repeat split.
    + rewrite Hstore. simpl. apply lookup_insert_eq.
    + rewrite Hemit. simpl. rewrite Hem. reflexivity.
    + exact Hget.
    + exact Hall.
    + clear -Hall. induction Hall as [|x y l l' Hxy _ IH]; constructor;
        [eapply identity_in_not_object; exact Hxy | exact IH].
  - destruct (make_send_emit "update" id data c items
                (set_elementData (insert (key_of id) data) s1) eq_refl Hc)
      as (payload & tokens & c' & s' & Erun & Hemit & Hstore & Hget & Hall).
    assert (Eall : onUpdated H data s = (Ret tt, s')).
    { unfold onUpdated. rewrite (bind_ret_eq _ _ _ _ _ E1). exact Erun. }
    exists id, payload, c', tokens. unfold result, after. rewrite Eall, E1. cbn [fst snd].
    repeat split.
    + rewrite Hstore. simpl. apply lookup_insert_eq.
    + rewrite Hemit. simpl. rewrite Hem. reflexivity.
    + exact Hget.
    + exact Hall.
    + clear -Hall. induction Hall as [|x y l l' Hxy _ IH]; constructor;
        [eapply identity_in_not_object; exact Hxy | exact IH].
Qed.

Lemma getId_again H s id s1 s2 :
  getId H s = (Ret id, s1) → ids s2 = ids s1 → getId H s2 = (Ret id, s2).
Proof.
  intros E Hids. destruct (ref_of H) as [a|] eqn:Er.
  - destruct (getId_registered H a s Er) as (t & Hres & Hl).
    unfold result, after in Hres, Hl. rewrite E in Hres, Hl. cbn [fst snd] in Hres, Hl.
    injection Hres as ->. apply (getId_known H a t s2 Er). rewrite Hids. exact Hl.
  - rewrite (getId_primitive _ _ Er) in E. injection E as <- <-.
    apply getId_primitive, Er.
Qed.

Lemma addRoot_eq renderer H s id s1 :
  getId H s = (Ret id, s1) →
  addRoot renderer H s =
  (Ret tt, set_emitted (λ l, l ++ [Event "root" [id]])
             (set_roots (λ r, {[key_of id]} ∪ r) s1)).
Proof. intros E. unfold addRoot. rewrite (bind_ret_eq _ _ _ _ _ E). reflexivity. Qed.

Lemma onMounted_eq renderer H data s id s1 :
  getId H s = (Ret id, s1) →
  onMounted renderer H data s =
  bind (make_send id data) (λ send, emit "mount" [send])
    (set_elementData (insert (key_of id) data)
       (set_renderers (insert (key_of id) renderer) s1)).
Proof. intros E. unfold onMounted. rewrite (bind_ret_eq _ _ _ _ _ E). reflexivity. Qed.

Lemma onUpdated_eq H data s id s1 :
  getId H s = (Ret id, s1) →
  onUpdated H data s =
  bind (make_send id data) (λ send, emit "update" [send])
    (set_elementData (insert (key_of id) data) s1).
Proof. intros E. unfold onUpdated. rewrite (bind_ret_eq _ _ _ _ _ E). reflexivity. Qed.

(** ** The mount scenario *)

(** C5, as amended.  [addRoot] and then [onMounted] of a root with the
    snapshot [{name: "App", children: []}] emit [root] with the identity of
    the root and then [mount] with [{name: "App", children: [], id,
    canUpdate}], where [canUpdate] is [undefined]: without an updater the
    payload carries the missing updater, not [false].  With an updater
    that has no [forceUpdate], [canUpdate] is [false]; [type] and [updater]
    are not in the payload. *)
Theorem mount_scenario (renderer : string) (H ty : value) (d c u : addr) (s : Agent) :
  ∃ id,
    result (getId H) s = Ret id ∧
    (let data := VObj d [("name", VStr "App"); ("children", VArr c [])] in
     let scenario := run! addRoot renderer H in onMounted renderer H data in
     result scenario s = Ret tt ∧
     emitted (after scenario s) =
     emitted s ++
       [Event "root" [id];
        Event "mount"
          [VObj (Loc (allocs s))
             [("name", VStr "App"); ("children", VArr (Loc (S (S (allocs s)))) []);
              ("id", id); ("canUpdate", VUndef)]]]) ∧
    (let data := VObj d [("name", VStr "App"); ("children", VArr c []);
                         ("type", ty); ("updater", VObj u [])] in
     let scenario := run! addRoot renderer H in onMounted renderer H data in
     result scenario s = Ret tt ∧
     emitted (after scenario s) =
     emitted s ++
       [Event "root" [id];
        Event "mount"
          [VObj (Loc (allocs s))
             [("name", VStr "App"); ("children", VArr (Loc (S (S (allocs s)))) []);
              ("id", id); ("canUpdate", VBool false)]]]).
Proof.
  destruct (getId_returns H s) as (id & Hid). exists id. split; [exact Hid|].
  destruct (getId H s) as [o s1] eqn:E1. unfold result in Hid. rewrite E1 in Hid.
  cbn [fst] in Hid. subst o.
  pose proof (getId_registry_only H s) as Hro. unfold after in Hro. rewrite E1 in Hro.
  cbn [snd] in Hro. destruct (registry_only_fields _ _ Hro) as (_ & Hem & Hal & _).
  pose proof (addRoot_eq renderer H s id s1 E1) as Eroot.
  assert (E2 : getId H (set_emitted (λ l, l ++ [Event "root" [id]])
                          (set_roots (λ r, {[key_of id]} ∪ r) s1)) =
               (Ret id, set_emitted (λ l, l ++ [Event "root" [id]])
                          (set_roots (λ r, {[key_of id]} ∪ r) s1))).
  { eapply getId_again; [exact E1|reflexivity]. }
  split.
  - cbv zeta. unfold result, after.
    rewrite (bind_ret_eq _ _ _ _ _ Eroot), (onMounted_eq _ _ _ _ _ _ E2).
    cbn. rewrite Hem, Hal, <- app_assoc. split; reflexivity.
  - cbv zeta. unfold result, after.
    rewrite (bind_ret_eq _ _ _ _ _ Eroot), (onMounted_eq _ _ _ _ _ _ E2).
    cbn. rewrite Hem, Hal, <- app_assoc. split; reflexivity.
Qed.

(** ** Highlighting *)

Lemma invoked_only_refl s : invoked_only s s.
Proof. destruct s. reflexivity. Qed.

Lemma invoked_only_trans s1 s2 s3 :
  invoked_only s1 s2 → invoked_only s2 s3 → invoked_only s1 s3.
Proof. unfold invoked_only. intros E12 E23. rewrite E23 at 1. rewrite E12 at 1. reflexivity. Qed.

Lemma invoked_only_tables s s' : invoked_only s s' → same_tables s s'.
Proof. intros ->. repeat split. Qed.

Lemma same_tables_trans s1 s2 s3 : same_tables s1 s2 → same_tables s2 s3 → same_tables s1 s3.
Proof. unfold same_tables. intros (A1 & B1 & C1) (A2 & B2 & C2). repeat split; congruence. Qed.

Lemma call_invoked_only f args s : invoked_only s (after (call f args) s).
Proof.
  unfold call, after. destruct f; try apply invoked_only_refl.
  unfold bind, modify, lift. cbn. reflexivity.
Qed.

Lemma call_result f args s s' : result (call f args) s' = result (call f args) s.
Proof. unfold call, result. destruct f; reflexivity. Qed.

Lemma getNodeForID_invoked_only id s : invoked_only s (after (getNodeForID id) s).
Proof.
  unfold getNodeForID, after, bind, gets, lift. cbn.
  destruct (truthy _); [|apply invoked_only_refl].
  destruct (renderers s !! key_of id) as [r|]; [|apply invoked_only_refl].
  destruct (negb _); [|apply invoked_only_refl].
  destruct (get _ _) as [f|e]; [|apply invoked_only_refl].
  destruct (truthy f); [|apply invoked_only_refl].
  apply call_invoked_only.
Qed.

Lemma node_of_same_tables s s' id : same_tables s s' → node_of s' id = node_of s id.
Proof.
  intros (E1 & E2 & E3). unfold node_of, result, getNodeForID, bind, gets, lift. cbn.
  rewrite E1. destruct (truthy _); [|reflexivity].
  rewrite E2. destruct (renderers s !! key_of id) as [r|]; [|reflexivity].
  destruct (negb _); [|reflexivity].
  rewrite E3. destruct (get _ _) as [f|e]; [|reflexivity].
  destruct (truthy f); [|reflexivity].
  apply call_result.
Qed.


(** [push_nodes] collects the nodes that resolve, as long as no lookup
    throws. *)
Lemma push_nodes_spec ids nodes s s1 :
  same_tables s s1 →
  Forall (λ id, ∃ node, node_of s id = Ret node) ids →
  ∃ s2, push_nodes ids nodes s1 = (Ret (nodes ++ resolved s ids), s2) ∧ invoked_only s1 s2.
Proof.
  revert nodes s1. induction ids as [|id rest IH]; intros nodes s1 Ht Hall.
  - exists s1. cbn. rewrite app_nil_r. split; [reflexivity|apply invoked_only_refl].
  - apply Forall_cons in Hall as [(node & Hnode) Hall]. cbn [push_nodes].
    pose proof (getNodeForID_invoked_only id s1) as Hinv.
    pose proof (node_of_same_tables s s1 id Ht) as Hsame. rewrite Hnode in Hsame.
    unfold node_of, result in Hsame. unfold after in Hinv.
    destruct (getNodeForID id s1) as [o s1'] eqn:E. cbn [fst snd] in Hsame, Hinv. subst o.
    destruct (IH (if truthy node then nodes ++ [node] else nodes) s1'
                (same_tables_trans _ _ _ Ht (invoked_only_tables _ _ Hinv)) Hall)
      as (s2 & E2 & Hinv2).
    exists s2. split.
    + rewrite (bind_ret_eq _ _ _ _ _ E), E2. f_equal. f_equal.
      assert (Hr : resolved_node s id = if truthy node then Some node else None).
      { unfold resolved_node. rewrite Hnode. reflexivity. }
      unfold resolved. cbn [omap list_omap]. rewrite Hr.
      destruct (truthy node); [rewrite <- app_assoc|]; reflexivity.
    + eapply invoked_only_trans; eassumption.
Qed.

Lemma invoked_only_fields s s' :
  invoked_only s s' →
  emitted s' = emitted s ∧ allocs s' = allocs s ∧ elementData s' = elementData s.
Proof. intros ->. repeat split. Qed.

Lemma get_field obj k : truthy obj = true → get obj k = Ret (field obj k).
Proof.
  intros E. destruct (get_truthy obj k E) as (v & Hv). unfold field. rewrite Hv. reflexivity.
Qed.

(** C6, as amended.  When the native lookup of every identity returns,
    [highlightMany] emits nothing if none of them resolves and otherwise one
    [highlightMany] event with the nodes that resolve, in the order of the
    input; when the lookup of [id] returns, [highlight] emits one
    [highlight] event with the node, the name and the props if there are
    both a snapshot and a node, and nothing otherwise; neither throws. *)
Theorem highlight_when_lookups_return (ids : list value) (id : value) (s : Agent) :
  Forall (λ i, ∃ node, node_of s i = Ret node) ids →
  (∃ node, node_of s id = Ret node) →
  (result (highlightMany ids) s = Ret tt ∧
   emitted (after (highlightMany ids) s) =
   emitted s ++
     match resolved s ids with
     | [] => []
     | nodes => [Event "highlightMany" [VArr (Loc (allocs s)) nodes]]
     end) ∧
  (result (highlight id) s = Ret tt ∧
   emitted (after (highlight id) s) =
   emitted s ++
     match snapshot s id, resolved_node s id with
     | Some data, Some node =>
         [Event "highlight"
            [VObj (Loc (allocs s))
               [("node", node); ("name", field data "name"); ("props", field data "props")]]]
     | _, _ => []
     end).
Proof.
  intros Hall (node & Hnode). split.
  - destruct (push_nodes_spec ids [] s (set_allocs (S (allocs s)) s)) as (s2 & E & Hinv);
      [repeat split | exact Hall |].
    destruct (invoked_only_fields _ _ Hinv) as (Hem & _).
    unfold result, after, highlightMany.
    rewrite (bind_ret_eq _ _ _ _ _ (fresh_eq s)), (bind_ret_eq _ _ _ _ _ E). cbn [app].
    destruct (resolved s ids) as [|n nodes]; cbn.
    + rewrite Hem, app_nil_r. split; reflexivity.
    + rewrite Hem. split; reflexivity.
  - pose proof (getNodeForID_invoked_only id s) as Hinv.
    unfold node_of, result in Hnode. unfold after in Hinv.
    destruct (getNodeForID id s) as [o s1] eqn:E. cbn [fst snd] in Hnode, Hinv. subst o.
    destruct (invoked_only_fields _ _ Hinv) as (Hem & Hal & _).
    assert (Hr : resolved_node s id = if truthy node then Some node else None).
    { unfold resolved_node, node_of, result. rewrite E. reflexivity. }
    rewrite Hr. unfold snapshot, result, after, highlight.
    rewrite (bind_ret_eq _ _ _ _ _ (gets_eq _ s)), (bind_ret_eq _ _ _ _ _ E).
    destruct (elementData s !! key_of id) as [data|]; simpl (default _ _).
    + destruct (truthy data) eqn:Hd; cbn [andb].
      * destruct (truthy node); [|cbn; rewrite Hem, app_nil_r; split; reflexivity].
        unfold bind, lift, fresh. rewrite !(get_field data _ Hd). cbn.
        rewrite Hem, Hal. split; reflexivity.
      * cbn. rewrite Hem, app_nil_r. split; reflexivity.
    + cbn. rewrite Hem, app_nil_r. split; reflexivity.
Qed.

(** ** Editing props, state and context *)

Lemma set_in_eq slot warning id path v s :
  set_in slot warning id path v s =
  if truthy (updater_slot s id slot) then
    bind (call (updater_slot s id slot) [path; v]) (λ _, ret tt) s
  else console_warn [VStr warning] s.
Proof.
  unfold set_in. rewrite (bind_ret_eq _ _ _ _ _ (gets_eq _ s)).
  unfold updater_slot.
  destruct (elementData s !! key_of id) as [data|]; simpl (default _ _); [|reflexivity].
  destruct (truthy data) eqn:Hd.
  - rewrite (get_field data "updater" Hd).
    unfold bind at 1. unfold bind at 1. unfold lift at 1.
    destruct (truthy (field data "updater")) eqn:Hu.
    + rewrite (get_field _ slot Hu). unfold lift.
      destruct (truthy (field (field data "updater") slot)); reflexivity.
    + unfold ret. rewrite Hu. reflexivity.
  - unfold bind, ret. rewrite Hd. reflexivity.
Qed.

Lemma command_eq e id path v :
  command e id path v = set_in (slot_of e) (warning_of e) id path v.
Proof. destruct e; reflexivity. Qed.

(** C7.  A command to set props, state or context whose identity has no
    snapshot, or whose snapshot has no updater with the matching slot,
    prints one warning, changes nothing else and does not throw; where the
    slot holds a function, the command calls it with the path and the
    value, once, and changes nothing else. *)
Theorem edit_command (e : edit) (id path v id' path' v' : value) (f : addr) (s s' : Agent) :
  elementData s !! key_of id = None ∨ truthy (updater_slot s id (slot_of e)) = false →
  updater_slot s' id' (slot_of e) = VFun f →
  command e id path v s =
  (Ret tt, set_console (λ l, l ++ [("warn", [VStr (warning_of e)])]) s) ∧
  command e id' path' v' s' =
  (match call_fn f [path'; v'] with Ret _ => Ret tt | Throw x => Throw x end,
   set_invoked (λ l, l ++ [Call f [path'; v']]) s').
Proof.
  intros Habsent Hslot. split.
  - rewrite command_eq, set_in_eq.
    assert (Hf : truthy (updater_slot s id (slot_of e)) = false).
    { destruct Habsent as [Hnone|Hf]; [|exact Hf]. unfold updater_slot. rewrite Hnone.
      reflexivity. }
    rewrite Hf. reflexivity.
  - rewrite command_eq, set_in_eq, Hslot. cbn [truthy].
    unfold call, bind, modify, lift. cbn.
    destruct (call_fn f [path'; v']); reflexivity.
Qed.

(** ** From a native node to an identity *)

Lemma set_invoked_nil s : set_invoked (λ l, l ++ []) s = s.
Proof. destruct s. unfold set_invoked. cbn. rewrite app_nil_r. reflexivity. Qed.

Lemma set_invoked_app a b s :
  set_invoked (λ l, l ++ b) (set_invoked (λ l, l ++ a) s) = set_invoked (λ l, l ++ (a ++ b)) s.
Proof. unfold set_invoked. cbn. rewrite app_assoc. reflexivity. Qed.

Lemma element_lookup_internals s s1 renderer node :
  reactInternals s1 = reactInternals s →
  element_lookup s1 renderer node = element_lookup s renderer node ∧
  element_match s1 node renderer = element_match s node renderer ∧
  lookup_call s1 node renderer = lookup_call s node renderer.
Proof.
  intros E. unfold element_match, element_lookup, lookup_call. rewrite E. repeat split.
Qed.

(** One round of the loop: the lookup of [renderer], with what it leaves
    in [component]. *)
Lemma lookup_round renderer component node s :
  try_or
    (let! helpers := gets (λ s, default VUndef (lookup_prop renderer (reactInternals s))) in
     let! f := lift (get helpers "getReactElementFromNative") in
     call f [node])
    component s =
  (Ret match element_lookup s renderer node with
       | Ret found => found
       | Throw _ => component
       end,
   set_invoked (λ l, l ++ lookup_call s node renderer) s).
Proof.
  unfold try_or, element_lookup, lookup_call.
  rewrite (bind_ret_eq _ _ _ _ _ (gets_eq _ s)).
  unfold bind, lift.
  destruct (get _ _) as [f|e]; [|rewrite set_invoked_nil; reflexivity].
  destruct f; cbn; rewrite ?set_invoked_nil; try reflexivity.
  destruct (call_fn a [node]); reflexivity.
Qed.

Lemma getIDForNode_loop_spec names component node s s1 :
  truthy component = false →
  reactInternals s1 = reactInternals s →
  getIDForNode_loop names component node s1 =
  match first_match s node names with
  | Some found => getId found (set_invoked (λ l, l ++ tried s node names) s1)
  | None => (Ret VNull, set_invoked (λ l, l ++ tried s node names) s1)
  end.
Proof.
  revert component s1. induction names as [|renderer rest IH]; intros component s1 Hc Hs.
  - cbn. rewrite set_invoked_nil. reflexivity.
  - cbn [getIDForNode_loop first_match tried].
    rewrite (bind_ret_eq _ _ _ _ _ (lookup_round renderer component node s1)).
    destruct (element_lookup_internals s s1 renderer node Hs) as (El & Em & Ec).
    rewrite El, Ec. unfold element_match.
    destruct (element_lookup s renderer node) as [found|e].
    + destruct (truthy found) eqn:Hf.
      * rewrite app_nil_r. reflexivity.
      * rewrite (IH found _ Hf) by exact Hs. rewrite set_invoked_app.
        destruct (first_match s node rest); reflexivity.
    + rewrite Hc. rewrite (IH component _ Hc) by exact Hs. rewrite set_invoked_app.
      destruct (first_match s node rest); reflexivity.
Qed.

Lemma index_props_none {A} (ps : list (string * A)) :
  forallb (λ p, negb (is_index (fst p))) ps = true → index_props ps = [].
Proof.
  induction ps as [|p ps IH]; [reflexivity|]. cbn [forallb index_props].
  intros Hp. apply andb_prop in Hp as [Hp Hps]. unfold is_index in Hp.
  destruct (array_index (fst p)); [discriminate|]. apply IH, Hps.
Qed.

Lemma enumerate_no_index {A} (ps : list (string * A)) :
  forallb (λ p, negb (is_index (fst p))) ps = true → enumerate ps = ps.
Proof.
  intros Hp. unfold enumerate. rewrite (index_props_none ps Hp). cbn [List.map app].
  induction ps as [|p ps IH]; [reflexivity|]. cbn [forallb List.filter] in *.
  apply andb_prop in Hp as [Hp Hps]. rewrite Hp, (IH Hps). reflexivity.
Qed.

(** C8, as amended.  [getIDForNode] tries the producers in the order
    [for ... in] visits [reactInternals] -- the order of registration when
    no renderer is named by an array index, which would come first -- and
    returns the identity of the component of the first whose lookup returns
    one; a lookup that throws counts as no match, nothing is thrown, and
    without a match the result is [null]. *)
Theorem getIDForNode_first_match (node : value) (s s' : Agent) :
  forallb (λ p, negb (is_index (fst p))) (reactInternals s') = true →
  getIDForNode node s =
  match first_match s node (enumeration_order s) with
  | Some found =>
      getId found (set_invoked (λ l, l ++ tried s node (enumeration_order s)) s)
  | None => (Ret VNull, set_invoked (λ l, l ++ tried s node (enumeration_order s)) s)
  end ∧
  (∃ i, result (getIDForNode node) s = Ret i) ∧
  enumeration_order s' = registration_order s'.
Proof.
  intros Hs'.
  assert (E : getIDForNode node s =
    match first_match s node (enumeration_order s) with
    | Some found =>
        getId found (set_invoked (λ l, l ++ tried s node (enumeration_order s)) s)
    | None => (Ret VNull, set_invoked (λ l, l ++ tried s node (enumeration_order s)) s)
    end).
  { unfold getIDForNode. rewrite (bind_ret_eq _ _ _ _ _ (gets_eq _ s)).
    apply getIDForNode_loop_spec; reflexivity. }
  split; [exact E|split].
  - unfold result. rewrite E. destruct (first_match s node (enumeration_order s)) as [found|].
    + apply getId_returns.
    + eexists. reflexivity.
  - unfold enumeration_order, registration_order. rewrite (enumerate_no_index _ Hs').
    reflexivity.
Qed.

(** ** Scrolling *)

Lemma _onScroll_pending s : _scrollUpdate s = true → _onScroll s = (Ret tt, s).
Proof. intros E. unfold _onScroll, bind, gets. rewrite E. reflexivity. Qed.

Lemma _onScroll_quiescent s :
  _scrollUpdate s = false → frame_requests s = 0 →
  _onScroll s = (Ret tt, set_frame_requests 1 (set_scrollUpdate true s)).
Proof.
  intros E F. unfold _onScroll, requestAnimationFrame, bind, gets, modify.
  rewrite E. cbn. rewrite F. reflexivity.
Qed.

Lemma scrolls_pending n s : _scrollUpdate s = true → scrolls n s = (Ret tt, s).
Proof.
  intros E. induction n as [|n IH]; [reflexivity|]. cbn [scrolls].
  rewrite (bind_ret_eq _ _ _ _ _ (_onScroll_pending s E)). exact IH.
Qed.

(** C9.  From the quiescent state the first scroll notification sets the
    flag and requests one animation frame; a notification that finds the
    flag set does nothing; so after any number of notifications one frame is
    pending, and that frame emits [refreshMultiOverlay] once and clears the
    flag. *)
Theorem scroll_single_flight (n : nat) (s pending : Agent) :
  _scrollUpdate s = false →
  frame_requests s = 0 →
  _scrollUpdate pending = true →
  _onScroll s = (Ret tt, set_frame_requests 1 (set_scrollUpdate true s)) ∧
  _onScroll pending = (Ret tt, pending) ∧
  scrolls (S n) s = (Ret tt, set_frame_requests 1 (set_scrollUpdate true s)) ∧
  (let s' := after (run! scrolls (S n) in animation_frame) s in
   emitted s' = emitted s ++ [Event "refreshMultiOverlay" []] ∧
   _scrollUpdate s' = false ∧
   frame_requests s' = 0).
Proof.
  intros E F P.
  assert (Hn : scrolls (S n) s = (Ret tt, set_frame_requests 1 (set_scrollUpdate true s))).
  { cbn [scrolls]. rewrite (bind_ret_eq _ _ _ _ _ (_onScroll_quiescent s E F)).
    apply scrolls_pending. reflexivity. }
  split; [apply _onScroll_quiescent; assumption|].
  split; [apply _onScroll_pending; assumption|].
  split; [exact Hn|].
  cbv zeta. unfold after. rewrite (bind_ret_eq _ _ _ _ _ Hn). cbn. repeat split.
Qed.

(** ** Exposing a value to the console *)

Lemma reduce_app f l1 l2 acc :
  reduce f (l1 ++ l2) acc =
  match reduce f l1 acc with
  | Ret acc' => reduce f l2 acc'
  | Throw e => Throw e
  end.
Proof.
  revert acc. induction l1 as [|x l1 IH]; intros acc; [reflexivity|].
  cbn [app reduce]. destruct (f acc x); [apply IH|reflexivity].
Qed.

(** Once the walk has reached a falsy value it stays at [null]. *)
Lemma reduce_falsy attr rest w :
  truthy w = false → reduce getIn_step (attr :: rest) w = Ret VNull.
Proof.
  intros Hw. cbn [reduce]. unfold getIn_step at 1. rewrite Hw. clear.
  induction rest as [|x rest IH]; [reflexivity|]. exact IH.
Qed.

(** A walk along property names returns. *)
Lemma reduce_names (attrs : list string) base :
  ∃ v, reduce getIn_step (VStr <$> attrs) base = Ret v.
Proof.
  revert base. induction attrs as [|k attrs IH]; intros base; [eexists; reflexivity|].
  cbn [fmap list_fmap reduce]. unfold getIn_step at 1. cbn [to_key].
  destruct (truthy base) eqn:Hb; [|apply IH].
  destruct (get_truthy base k Hb) as (v & ->). apply IH.
Qed.

(** C10.  [_makeGlobal] for an identity without a snapshot changes nothing
    and prints nothing.  With a snapshot and a path that is an array of
    property names, the walk returns a value, [$tmp] is set to it and one
    line is logged; a walk that has reached a missing, null or other falsy
    value before its last name ends at [null]. *)
Theorem makeGlobal_walk
    (id path id' data w : value) (p : addr) (attrs before rest : list string) (attr : string)
    (s s' : Agent) :
  elementData s !! key_of id = None →
  snapshot s' id' = Some data →
  getIn data (VArr p (VStr <$> before)) = Ret w →
  truthy w = false →
  _makeGlobal id path s = (Ret tt, s) ∧
  (∃ v, getIn data (VArr p (VStr <$> attrs)) = Ret v ∧
        _makeGlobal id' (VArr p (VStr <$> attrs)) s' =
        (Ret tt,
         set_console (λ l, l ++ [("log", [VStr "$tmp ="; v])])
           (set_global (insert "$tmp" v) s'))) ∧
  getIn data (VArr p (VStr <$> (before ++ attr :: rest))) = Ret VNull.
Proof.
  intros Hnone Hsnap Hw Hfalsy. split; [|split].
  - unfold _makeGlobal. rewrite (bind_ret_eq _ _ _ _ _ (gets_eq _ s)). rewrite Hnone.
    reflexivity.
  - destruct (reduce_names attrs data) as (v & Hv). exists v. split; [exact Hv|].
    unfold snapshot in Hsnap.
    destruct (elementData s' !! key_of id') as [d|] eqn:Hd; [|discriminate].
    destruct (truthy d) eqn:Ht; [|discriminate]. injection Hsnap as ->.
    unfold _makeGlobal. rewrite (bind_ret_eq _ _ _ _ _ (gets_eq _ s')). rewrite Hd.
    simpl (default _ _). rewrite Ht. cbn [is_instance].
    unfold bind, lift, modify, console_log. cbn [getIn]. rewrite Hv. reflexivity.
  - cbn [getIn] in *. rewrite fmap_app, reduce_app, Hw. apply reduce_falsy, Hfalsy.
Qed.

(** ** Invariants of every method *)

Lemma keeps_ret P {A} (a : A) : keeps P (ret a).
Proof. intros s Hs. exact Hs. Qed.

Lemma keeps_throw P {A} e : keeps P (@throw A e).
Proof. intros s Hs. exact Hs. Qed.

Lemma keeps_lift P {A} (o : outcome A) : keeps P (lift o).
Proof. intros s Hs. exact Hs. Qed.

Lemma keeps_gets P {A} (f : Agent → A) : keeps P (gets f).
Proof. intros s Hs. exact Hs. Qed.

Lemma keeps_bind P {A B} (m : M A) (k : A → M B) :
  keeps P m → (∀ a, keeps P (k a)) → keeps P (bind m k).
Proof.
  intros Hm Hk s Hs. rewrite after_bind.
  destruct (result m s) as [a|e]; [apply Hk|]; apply Hm, Hs.
Qed.

Lemma keeps_try_or P {A} (m : M A) (d : A) : keeps P m → keeps P (try_or m d).
Proof.
  intros Hm s Hs. specialize (Hm s Hs). unfold after, try_or in *.
  destruct (m s) as [[a|e] s']; exact Hm.
Qed.

Create HintDb keeps.

Ltac keeps_step :=
  first
    [ apply keeps_ret | apply keeps_throw | apply keeps_lift | apply keeps_gets
    | solve [auto with keeps]
    | apply keeps_try_or
    | apply keeps_bind; [|intros ?] ].

Ltac keeps_cases :=
  match goal with
  | |- keeps _ (if ?b then _ else _) => destruct b
  | |- keeps _ (match ?x with _ => _ end) => destruct x
  end.

Ltac solve_keeps := repeat (first [ keeps_step | keeps_cases ]).

Section Invariant.

(** A property that does not depend on what the agent has emitted, invoked,
    printed or allocated, nor on the console slots of the page. *)
Variable P : Agent → Prop.

Hypothesis P_ambient : ∀ s e i c n,
  P s →
  P (set_allocs n (set_console (λ _, c) (set_invoked (λ _, i) (set_emitted (λ _, e) s)))).

Hypothesis P_global : ∀ s g, P s → P (set_global (λ _, g) s).

Lemma keeps_set_emitted f : keeps P (modify (set_emitted f)).
Proof.
  intros s Hs. exact (P_ambient s (f (emitted s)) (invoked s) (console s) (allocs s) Hs).
Qed.

Lemma keeps_set_invoked f : keeps P (modify (set_invoked f)).
Proof.
  intros s Hs. exact (P_ambient s (emitted s) (f (invoked s)) (console s) (allocs s) Hs).
Qed.

Lemma keeps_set_console f : keeps P (modify (set_console f)).
Proof.
  intros s Hs. exact (P_ambient s (emitted s) (invoked s) (f (console s)) (allocs s) Hs).
Qed.

Lemma keeps_set_global f : keeps P (modify (set_global f)).
Proof. intros s Hs. exact (P_global s (f (global s)) Hs). Qed.

Lemma keeps_fresh : keeps P fresh.
Proof.
  intros s Hs. exact (P_ambient s (emitted s) (invoked s) (console s) (S (allocs s)) Hs).
Qed.

#[local] Hint Resolve keeps_set_emitted keeps_set_invoked keeps_set_console
  keeps_set_global keeps_fresh : keeps.

Lemma keeps_emit name args : keeps P (emit name args).
Proof. unfold emit, on_selected. solve_keeps. Qed.

Lemma keeps_call f args : keeps P (call f args).
Proof. unfold call. solve_keeps. Qed.

#[local] Hint Resolve keeps_emit keeps_call : keeps.

Lemma keeps_getNodeForID id : keeps P (getNodeForID id).
Proof. unfold getNodeForID. solve_keeps. Qed.

#[local] Hint Resolve keeps_getNodeForID : keeps.

Lemma keeps_highlight id : keeps P (highlight id).
Proof. unfold highlight. solve_keeps. Qed.

Lemma keeps_push_nodes ids nodes : keeps P (push_nodes ids nodes).
Proof.
  revert nodes. induction ids as [|id rest IH]; intros nodes; cbn [push_nodes]; solve_keeps.
Qed.

#[local] Hint Resolve keeps_highlight keeps_push_nodes : keeps.

Lemma keeps_highlightMany ids : keeps P (highlightMany ids).
Proof. unfold highlightMany. solve_keeps. Qed.

Lemma keeps_set_in slot warning id path v : keeps P (set_in slot warning id path v).
Proof. unfold set_in, console_warn. solve_keeps. Qed.

Lemma keeps_makeGlobal id path : keeps P (_makeGlobal id path).
Proof. unfold _makeGlobal, console_log. solve_keeps. Qed.

Lemma keeps_scrollToNode id : keeps P (scrollToNode id).
Proof. unfold scrollToNode, console_warn. solve_keeps. Qed.

#[local] Hint Resolve keeps_highlightMany keeps_set_in keeps_makeGlobal
  keeps_scrollToNode : keeps.

(** What is left to show of a property for it to hold in every state the
    agent reaches: that each write to the registry, the store, the table of
    renderers and the scroll flag keeps it. *)
Hypothesis P_getId : ∀ element, keeps P (getId element).

Hypothesis P_internals : ∀ s renderer helpers,
  P s → P (set_reactInternals (set_prop renderer helpers) s).

Hypothesis P_root : ∀ s k, P s → P (set_roots (λ r, {[k]} ∪ r) s).

Hypothesis P_mount : ∀ s k renderer data,
  P s → P (set_elementData (insert k data) (set_renderers (insert k renderer) s)).

Hypothesis P_update : ∀ s k data, P s → P (set_elementData (insert k data) s).

Hypothesis P_unmount : ∀ s k,
  P s →
  P (set_renderers (delete k) (set_roots (λ r, r ∖ {[k]}) (set_elementData (delete k) s))).

Hypothesis P_forget : ∀ s a, P s → P (set_ids (delete a) s).

Hypothesis P_scroll : ∀ s,
  P s → _scrollUpdate s = false →
  P (set_frame_requests (S (frame_requests s)) (set_scrollUpdate true s)).

Hypothesis P_frame : ∀ s,
  P s →
  (frame_requests s = 0 → P (set_frame_requests 0 s)) ∧
  (frame_requests s ≠ 0 → P (set_scrollUpdate false (set_frame_requests 0 s))).

#[local] Hint Resolve P_getId : keeps.

Lemma keeps_map_getId items : keeps P (map_getId items).
Proof. induction items as [|c rest IH]; cbn [map_getId]; solve_keeps. Qed.

#[local] Hint Resolve keeps_map_getId : keeps.

Lemma keeps_make_send id data : keeps P (make_send id data).
Proof. unfold make_send, translate_children, canUpdate_of, call_map. solve_keeps. Qed.

Lemma keeps_getIDForNode_loop names component node :
  keeps P (getIDForNode_loop names component node).
Proof.
  revert component. induction names as [|r rest IH]; intros component;
    cbn [getIDForNode_loop]; solve_keeps.
Qed.

#[local] Hint Resolve keeps_make_send keeps_getIDForNode_loop : keeps.

Lemma keeps_getIDForNode node : keeps P (getIDForNode node).
Proof. unfold getIDForNode. solve_keeps. Qed.

#[local] Hint Resolve keeps_getIDForNode : keeps.

Lemma keeps_onMounted renderer component data : keeps P (onMounted renderer component data).
Proof.
  unfold onMounted. apply keeps_bind; [apply P_getId|intros id].
  intros s Hs.
  change (P (after (let! send := make_send id data in emit "mount" [send])
               (set_elementData (insert (key_of id) data)
                  (set_renderers (insert (key_of id) renderer) s)))).
  revert s Hs.
  assert (Hk : keeps P (let! send := make_send id data in emit "mount" [send]))
    by solve_keeps.
  intros s Hs. apply Hk, P_mount, Hs.
Qed.

Lemma keeps_onUpdated component data : keeps P (onUpdated component data).
Proof.
  unfold onUpdated. apply keeps_bind; [apply P_getId|intros id].
  apply keeps_bind; [intros s Hs; apply P_update, Hs|intros _]. solve_keeps.
Qed.

Lemma keeps_onUnmounted component : keeps P (onUnmounted component).
Proof.
  unfold onUnmounted. apply keeps_bind; [apply P_getId|intros id].
  assert (Hk : keeps P (run! emit "unmount" [id] in
                        match component with
                        | VObj a _ | VArr a _ | VFun a => modify (set_ids (delete a))
                        | _ => ret tt
                        end)).
  { apply keeps_bind; [apply keeps_emit|intros _].
    destruct component; try apply keeps_ret; intros s Hs; apply P_forget, Hs. }
  intros s Hs.
  change (P (after (run! emit "unmount" [id] in
                    match component with
                    | VObj a _ | VArr a _ | VFun a => modify (set_ids (delete a))
                    | _ => ret tt
                    end)
               (set_renderers (delete (key_of id))
                  (set_roots (λ r, r ∖ {[key_of id]})
                     (set_elementData (delete (key_of id)) s))))).
  apply Hk, P_unmount, Hs.
Qed.

Lemma keeps_run_requests n :
  ∀ s, (n = 0 → P s) → (n ≠ 0 → P (set_scrollUpdate false s)) →
       P (after (run_requests n) s).
Proof.
  induction n as [|n IH]; intros s Hs Hclear; [apply Hs; reflexivity|].
  cbn [run_requests]. unfold _updateScroll.
  assert (Hc : P (set_scrollUpdate false s)) by (apply Hclear; discriminate).
  assert (E : after (run! (run! emit "refreshMultiOverlay" [] in
                           modify (set_scrollUpdate false)) in run_requests n) s =
              after (run_requests n)
                (set_scrollUpdate false
                   (set_emitted (λ l, l ++ [Event "refreshMultiOverlay" []]) s)))
    by reflexivity.
  rewrite E.
  assert (Hc' : P (set_scrollUpdate false
                     (set_emitted (λ l, l ++ [Event "refreshMultiOverlay" []]) s))).
  { exact (P_ambient _ (emitted s ++ [Event "refreshMultiOverlay" []]) (invoked s)
             (console s) (allocs s) Hc). }
  apply IH; intros _; exact Hc'.
Qed.

Lemma keeps_animation_frame : keeps P animation_frame.
Proof.
  intros s Hs. destruct (P_frame s Hs) as [H0 Hclear].
  change (P (after (run_requests (frame_requests s)) (set_frame_requests 0 s))).
  apply keeps_run_requests; [exact H0|exact Hclear].
Qed.

Lemma keeps_exec o : keeps P (exec o).
Proof.
  destruct o; cbn [exec].
  - intros s Hs. apply P_internals, Hs.
  - unfold addRoot. apply keeps_bind; [apply P_getId|intros id].
    apply keeps_bind; [intros s Hs; apply P_root, Hs|intros _]. apply keeps_emit.
  - apply keeps_onMounted.
  - apply keeps_onUpdated.
  - apply keeps_onUnmounted.
  - apply keeps_highlight.
  - apply keeps_highlightMany.
  - solve_keeps.
  - apply keeps_set_in.
  - apply keeps_set_in.
  - apply keeps_set_in.
  - apply keeps_makeGlobal.
  - intros s Hs. unfold _onScroll, requestAnimationFrame, after, bind, gets, modify.
    destruct (_scrollUpdate s) eqn:E; cbn; [exact Hs|]. apply P_scroll; assumption.
  - apply keeps_animation_frame.
Qed.

Lemma keeps_perform c : keeps P (perform c).
Proof.
  destruct c; cbn [perform].
  - apply keeps_exec.
  - apply keeps_scrollToNode.
  - unfold selectFromDOMNode. solve_keeps.
  - unfold selectFromReactInstance, console_log. solve_keeps.
  - apply keeps_emit.
Qed.

Lemma invariant_reachable_all :
  (∀ g, P (new_Agent g)) → ∀ s, reachable_all s → P s.
Proof.
  intros Hnew s Hr. induction Hr as [g|c s _ IH]; [apply Hnew|].
  apply keeps_perform, IH.
Qed.

End Invariant.

Lemma reachable_all_performs g cs : reachable_all (performs cs (new_Agent g)).
Proof.
  induction cs as [|c cs IH] using rev_ind; [apply reachable_all_new|].
  unfold performs. rewrite fold_left_app. apply reachable_all_perform. exact IH.
Qed.

Lemma keeps_getId_registry_only (P : Agent → Prop) :
  (∀ s r i n, P s → P (set_reactElements (λ _, r) (set_ids (λ _, i) (set_guid_calls n s)))) →
  ∀ element, keeps P (getId element).
Proof.
  intros HP element s Hs. rewrite (getId_registry_only element s). apply HP, Hs.
Qed.

(** ** The scroll flag in every state *)

(** X1.  In every state the agent reaches by the calls of [method], one
    refresh is pending exactly when the scroll flag is set and none
    otherwise; so an animation frame emits [refreshMultiOverlay] once if the
    flag is set and nothing if not, and leaves the flag cleared with nothing
    pending. *)
Theorem single_flight_always (s : Agent) :
  reachable_all s →
  single_flight s ∧
  result animation_frame s = Ret tt ∧
  emitted (after animation_frame s) =
  emitted s ++ (if _scrollUpdate s then [Event "refreshMultiOverlay" []] else []) ∧
  _scrollUpdate (after animation_frame s) = false ∧
  frame_requests (after animation_frame s) = 0.
Proof.
  intros Hr.
  assert (Hs : single_flight s).
  { revert s Hr. apply (invariant_reachable_all single_flight).
    - intros s e i c n H. exact H.
    - intros s g H. exact H.
    - apply keeps_getId_registry_only. intros s r i n H. exact H.
    - intros s r h H. exact H.
    - intros s k H. exact H.
    - intros s k r d H. exact H.
    - intros s k d H. exact H.
    - intros s k H. exact H.
    - intros s a H. exact H.
    - intros s H E. unfold single_flight in *. cbn. rewrite E in H. rewrite H. reflexivity.
    - intros s H. unfold single_flight in *. cbn. split.
      + intros E. rewrite E in H. destruct (_scrollUpdate s); [discriminate|reflexivity].
      + intros _. reflexivity.
    - intros g. reflexivity. }
  split; [exact Hs|]. unfold single_flight in Hs.
  unfold result, after, animation_frame, bind, gets, modify. cbn. rewrite Hs.
  destruct (_scrollUpdate s) eqn:E; cbn; rewrite ?E, ?app_nil_r; repeat split.
Qed.

(** ** Renderers and snapshots *)

(** X2.  In every state the agent reaches, an identity that has a renderer
    has a snapshot; hence whatever [getNodeForID] resolves to a native node
    has a snapshot in the store. *)
Theorem resolved_have_snapshots (s : Agent) (id node : value) :
  reachable_all s →
  resolved_node s id = Some node →
  attributed_have_snapshots s ∧ is_Some (elementData s !! key_of id).
Proof.
  intros Hr Hres.
  assert (Hs : attributed_have_snapshots s).
  { revert s Hr Hres. intros s Hr _. revert s Hr.
    apply (invariant_reachable_all attributed_have_snapshots).
    - intros s e i c n H. exact H.
    - intros s g H. exact H.
    - apply keeps_getId_registry_only. intros s r i n H. exact H.
    - intros s r h H. exact H.
    - intros s k H. exact H.
    - intros s k r d H k'. cbn. destruct (decide (k = k')) as [->|Hne].
      + rewrite !lookup_insert_eq. eauto.
      + rewrite !lookup_insert_ne by exact Hne. apply H.
    - intros s k d H k'. cbn. destruct (decide (k = k')) as [->|Hne].
      + rewrite lookup_insert_eq. eauto.
      + rewrite lookup_insert_ne by exact Hne. apply H.
    - intros s k H k'. cbn. destruct (decide (k = k')) as [->|Hne].
      + rewrite lookup_delete_eq. intros [x Hx]. discriminate.
      + rewrite !lookup_delete_ne by exact Hne. apply H.
    - intros s a H. exact H.
    - intros s H _. exact H.
    - intros s H. split; intros _; exact H.
    - intros g k. cbn. rewrite lookup_empty. intros [x Hx]. discriminate. }
  split; [exact Hs|]. apply Hs.
  unfold resolved_node, node_of, result, getNodeForID, bind, gets in Hres. cbn in Hres.
  destruct (truthy (default VUndef (reactElements s !! key_of id))); [|discriminate].
  destruct (renderers s !! key_of id) as [r|]; [eauto|discriminate].
Qed.

(** ** From a token back to the object *)

Lemma registry_ok_getId (Hunique : ∀ m n, guid m = guid n → m = n) element :
  keeps (λ s, registry_ok s ∧ tokens_lead_back s) (getId element).
Proof.
  intros s [Hok Hback]. split.
  - eapply registry_ok_steps; [exact Hunique|apply (tracks_getId nothing)|exact Hok].
  - destruct (ref_of element) as [a|] eqn:E.
    + destruct (ids s !! a) as [t|] eqn:Ht; unfold after.
      * rewrite (getId_known _ _ _ _ E Ht). exact Hback.
      * rewrite (getId_new _ _ _ E Ht). intros b t. cbn.
        destruct (decide (a = b)) as [->|Hne].
        -- rewrite lookup_insert_eq. intros [= <-]. exists element.
           rewrite lookup_insert_eq. auto.
        -- rewrite lookup_insert_ne by exact Hne. intros Hb.
           destruct (Hback b t Hb) as (H & HH & Hr). exists H. split; [|exact Hr].
           rewrite lookup_insert_ne; [exact HH|].
           intros [= Heq]. destruct Hok as [Hbound _].
           destruct (Hbound b t Hb) as (n & Hn & ->). apply Hunique in Heq. lia.
    + unfold after. rewrite (getId_primitive _ _ E). exact Hback.
Qed.

(** X3.  When [guid] never repeats, in every state the agent reaches the
    token of a registered object is the key under which [reactElements]
    holds that very object, and no other registered object has the token:
    [reactElements.get(getId(H))] is [H]. *)
Theorem token_leads_back (H : value) (a : addr) (t : string) (s : Agent) :
  (∀ m n, guid m = guid n → m = n) →
  reachable_all s →
  ref_of H = Some a →
  ids s !! a = Some t →
  getId H s = (Ret (VStr t), s) ∧
  (∃ H', reactElements s !! KStr t = Some H' ∧ ref_of H' = Some a) ∧
  (∀ b, ids s !! b = Some t → b = a).
Proof.
  intros Hunique Hr E Ht.
  assert (Hs : registry_ok s ∧ tokens_lead_back s).
  { revert s Hr Ht. intros s Hr _. revert s Hr.
    apply (invariant_reachable_all (λ s, registry_ok s ∧ tokens_lead_back s)).
    - intros s e i c n H0. exact H0.
    - intros s g H0. exact H0.
    - apply registry_ok_getId, Hunique.
    - intros s r h H0. exact H0.
    - intros s k H0. exact H0.
    - intros s k r d H0. exact H0.
    - intros s k d H0. exact H0.
    - intros s k H0. exact H0.
    - intros s b [Hok Hback]. split.
      + eapply registry_ok_step; [exact Hunique| |exact Hok].
        apply (registry_forget (λ _, True) _ _ b); [exact I|reflexivity|reflexivity].
      + intros c u. cbn. intros Hc. apply lookup_delete_Some in Hc as [_ Hc].
        exact (Hback c u Hc).
    - intros s H0 _. exact H0.
    - intros s H0. split; intros _; exact H0.
    - intros g. split; [apply registry_ok_new|].
      intros b u. cbn. rewrite lookup_empty. discriminate. }
  destruct Hs as [[_ Hinj] Hback].
  split; [apply (getId_known H a t s E Ht)|]. split; [apply Hback, Ht|].
  intros b Hb. eapply Hinj; eassumption.
Qed.

(** ** What a command leaves alone *)

Lemma same_store_refl s : same_store s s.
Proof. repeat split. Qed.

(** X4.  The commands of the frontend ([highlight], [highlightMany],
    [scrollToNode], the three edits, [makeGlobal], [selected]) and the scroll
    and frame events never write to the registry, the element store, the
    roots or the tables of renderers, whether they return or throw. *)
Theorem commands_leave_store (c : method) (s : Agent) :
  is_command c = true →
  same_store s (after (perform c) s).
Proof.
  intros Hc.
  assert (Ha : ∀ s' e i o n,
            same_store s s' →
            same_store s
              (set_allocs n (set_console (λ _, o) (set_invoked (λ _, i)
                 (set_emitted (λ _, e) s'))))) by (intros s' e i o n H0; exact H0).
  assert (Hg : ∀ s' g, same_store s s' → same_store s (set_global (λ _, g) s'))
    by (intros s' g H0; exact H0).
  destruct c as [o| | | |]; try discriminate.
  - destruct o; try discriminate; cbn [perform exec].
    + apply (keeps_highlight _ Ha Hg), same_store_refl.
    + apply (keeps_highlightMany _ Ha Hg), same_store_refl.
    + apply (keeps_set_in _ Ha), same_store_refl.
    + apply (keeps_set_in _ Ha), same_store_refl.
    + apply (keeps_set_in _ Ha), same_store_refl.
    + apply (keeps_makeGlobal _ Ha Hg), same_store_refl.
    + unfold _onScroll, requestAnimationFrame, after, bind, gets, modify.
      destruct (_scrollUpdate s); cbn; repeat split.
    + apply (keeps_animation_frame _ Ha); [|apply same_store_refl].
      intros s' H0. split; intros _; exact H0.
  - apply (keeps_scrollToNode _ Ha Hg), same_store_refl.
  - apply (keeps_emit _ Ha Hg), same_store_refl.
Qed.

(** ** Identities of identities *)

(** X5.  What [getId] returns is never an object, and [getId] returns it
    unchanged when given it again, without touching the state: the identity
    of an identity is itself. *)
Theorem getId_idempotent (element : value) (s : Agent) :
  ∃ i, getId element s = (Ret i, after (getId element) s) ∧
       object_like i = false ∧
       getId i (after (getId element) s) = (Ret i, after (getId element) s).
Proof.
  destruct (ref_of element) as [a|] eqn:E.
  - destruct (getId_registered element a s E) as (t & Hres & _).
    exists (VStr t). unfold result in Hres. unfold after.
    destruct (getId element s) as [o s1]. cbn [fst snd] in *. subst o.
    repeat split.
  - exists element. unfold after. rewrite (getId_primitive _ _ E). cbn [snd].
    repeat split.
    + unfold object_like. rewrite E. reflexivity.
    + apply getId_primitive, E.
Qed.

(** ** Identities that do not resolve *)

Lemma getNodeForID_no_renderer id s :
  renderers s !! key_of id = None → getNodeForID id s = (Ret VNull, s).
Proof.
  intros Hr. unfold getNodeForID. rewrite (bind_ret_eq _ _ _ _ _ (gets_eq _ s)).
  destruct (truthy _); [|reflexivity].
  rewrite (bind_ret_eq _ _ _ _ _ (gets_eq _ s)), Hr. reflexivity.
Qed.

Lemma highlight_no_node id s :
  getNodeForID id s = (Ret VNull, s) → highlight id s = (Ret tt, s).
Proof.
  intros E. unfold highlight.
  rewrite (bind_ret_eq _ _ _ _ _ (gets_eq _ s)), (bind_ret_eq _ _ _ _ _ E).
  cbn [truthy]. rewrite andb_false_r. reflexivity.
Qed.

Lemma scrollToNode_no_node id s :
  getNodeForID id s = (Ret VNull, s) →
  scrollToNode id s =
  (Ret tt,
   set_console (λ l, l ++ [("warn", [VStr "unable to get the node for scrolling"])]) s).
Proof. intros E. unfold scrollToNode. rewrite (bind_ret_eq _ _ _ _ _ E). reflexivity. Qed.

(** X6.  An identity without a renderer -- one that was only added as a
    root, only updated, or never seen -- has no native node: [getNodeForID]
    returns [null] without asking any producer, [highlight] does nothing,
    and [scrollToNode] prints its warning and highlights nothing. *)
Theorem unattributed_unresolved (id : value) (s : Agent) :
  renderers s !! key_of id = None →
  getNodeForID id s = (Ret VNull, s) ∧
  highlight id s = (Ret tt, s) ∧
  highlightMany [id] s = (Ret tt, set_allocs (S (allocs s)) s) ∧
  scrollToNode id s =
  (Ret tt,
   set_console (λ l, l ++ [("warn", [VStr "unable to get the node for scrolling"])]) s).
Proof.
  intros Hr. pose proof (getNodeForID_no_renderer id s Hr) as E.
  split; [exact E|]. split; [apply highlight_no_node, E|].
  split; [|apply scrollToNode_no_node, E].
  unfold highlightMany. rewrite (bind_ret_eq _ _ _ _ _ (fresh_eq s)). cbn [push_nodes].
  assert (E' : getNodeForID id (set_allocs (S (allocs s)) s) =
               (Ret VNull, set_allocs (S (allocs s)) s))
    by (apply getNodeForID_no_renderer; exact Hr).
  unfold bind at 1. unfold bind at 1. rewrite E'. reflexivity.
Qed.

(** X7.  Once an object is unmounted its old identity resolves to nothing:
    [reactElements] still holds the object, yet [getNodeForID] returns
    [null] without asking its producer, and [highlight] stays silent. *)
Theorem unmounted_unresolved (H : value) (a : addr) (i : string) (s : Agent) :
  ref_of H = Some a →
  ids s !! a = Some i →
  let s' := after (onUnmounted H) s in
  reactElements s' = reactElements s ∧
  getNodeForID (VStr i) s' = (Ret VNull, s') ∧
  highlight (VStr i) s' = (Ret tt, s') ∧
  invoked s' = invoked s.
Proof.
  intros E Hi s'. subst s'. unfold after. rewrite (onUnmounted_known H a i s E Hi).
  cbn [snd].
  assert (Hr : renderers (unmounted a i s) !! key_of (VStr i) = None)
    by (cbn; apply lookup_delete_eq).
  pose proof (getNodeForID_no_renderer _ _ Hr) as En.
  repeat split; [exact En|apply highlight_no_node, En].
Qed.

(** X8.  Unmounting an object the registry has never seen takes a fresh
    token for it, announces the unmount of that token, and forgets the
    object again: [ids] is as before, one token is used up, and
    [reactElements] has gained an entry for the object. *)
Theorem onUnmounted_unregistered (H : value) (a : addr) (s : Agent) :
  ref_of H = Some a →
  ids s !! a = None →
  let t := guid (guid_calls s) in
  let s' := after (onUnmounted H) s in
  result (onUnmounted H) s = Ret tt ∧
  ids s' = ids s ∧
  guid_calls s' = S (guid_calls s) ∧
  reactElements s' = <[KStr t := H]> (reactElements s) ∧
  emitted s' = emitted s ++ [Event "unmount" [VStr t]].
Proof.
  intros E Hn t s'. subst t s'. unfold result, after, onUnmounted.
  rewrite (bind_ret_eq _ _ _ _ _ (getId_new H a s E Hn)).
  destruct H; try discriminate; injection E as ->; cbn; repeat split;
    apply delete_insert_id, Hn.
Qed.

(** ** The payload in general *)

Lemma translate_children_others send send' s s' k :
  translate_children send s = (Ret send', s') →
  k ≠ "children" →
  lookup_prop k send' = lookup_prop k send.
Proof.
  unfold translate_children. intros E Hk.
  destruct (truthy (default VUndef (lookup_prop "children" send))) eqn:Hc;
    [|injection E as <- _; reflexivity].
  destruct (get_truthy _ "map" Hc) as (map & Hmap).
  unfold bind at 1 in E. unfold lift at 1 in E. rewrite Hmap in E.
  destruct (truthy map); [|injection E as <- _; reflexivity].
  unfold bind in E. destruct (call_map _ _ s) as [[mapped|e] s1]; [|discriminate].
  injection E as <- _. apply lookup_set_prop_ne. congruence.
Qed.

Lemma can_update_for send id data :
  lookup_prop "updater" send = lookup_prop "updater" (own_props data) →
  can_update (set_prop "id" id send) = canUpdate_for data.
Proof.
  intros E. unfold can_update, canUpdate_for, field. cbv zeta.
  rewrite lookup_set_prop_ne by discriminate. rewrite E.
  destruct (truthy (default VUndef (lookup_prop "updater" (own_props data)))) eqn:Hu;
    [|reflexivity].
  destruct (get_truthy _ "forceUpdate" Hu) as (f & ->). reflexivity.
Qed.

(** X9.  Whenever [make_send] returns, for [mount] or for [update], the
    payload is a new object that carries the identity as [id], has no
    [type] and no [updater], has the [canUpdate] the snapshot decides, and
    agrees with the snapshot on every other field but [children]. *)
Theorem payload_shape (id data payload : value) (s s' : Agent) :
  make_send id data s = (Ret payload, s') →
  ∃ props,
    payload = VObj (Loc (allocs s)) props ∧
    lookup_prop "id" props = Some id ∧
    lookup_prop "type" props = None ∧
    lookup_prop "updater" props = None ∧
    lookup_prop "canUpdate" props = Some (canUpdate_for data) ∧
    (∀ k, k ∉ rewritten → lookup_prop k props = lookup_prop k (own_props data)).
Proof.
  intros E. rewrite make_send_eq in E.
  destruct (translate_children (own_props data) (set_allocs (S (allocs s)) s))
    as [[send|e] s1] eqn:Et; [|discriminate].
  injection E as <- <-. exists (finish_send id send). split; [reflexivity|].
  pose proof (translate_children_others _ _ _ _ "updater" Et ltac:(discriminate)) as Hu.
  unfold finish_send. cbv zeta. repeat split.
  - rewrite !lookup_delete_prop_ne by discriminate.
    rewrite lookup_set_prop_ne by discriminate. apply lookup_set_prop_eq.
  - rewrite lookup_delete_prop_ne by discriminate. apply lookup_delete_prop_eq.
  - apply lookup_delete_prop_eq.
  - rewrite !lookup_delete_prop_ne by discriminate.
    rewrite lookup_set_prop_eq. f_equal. apply can_update_for, Hu.
  - intros k Hk. unfold rewritten in Hk.
    assert (Hne : k ≠ "children" ∧ k ≠ "id" ∧ k ≠ "canUpdate" ∧ k ≠ "type" ∧ k ≠ "updater").
    { repeat split; intros ->; apply Hk; set_solver. }
    destruct Hne as (H1 & H2 & H3 & H4 & H5).
    rewrite !lookup_delete_prop_ne by congruence.
    rewrite !lookup_set_prop_ne by congruence.
    eapply translate_children_others; eassumption.
Qed.

(** ** Walking a path *)

(** X10.  The empty path leads to the base itself, and walking a path in
    two parts is walking it whole: the second part starts where the first
    ended. *)
Theorem getIn_concat (base : value) (p q r : addr) (first second : list value) :
  getIn base (VArr p []) = Ret base ∧
  getIn base (VArr p (first ++ second)) =
  match getIn base (VArr q first) with
  | Ret v => getIn v (VArr r second)
  | Throw e => Throw e
  end.
Proof. split; [reflexivity|]. cbn [getIn]. apply reduce_app. Qed.

(** X11.  For an identity with a snapshot, the path ['instance'] and the
    path [['publicInstance']] do the same: [$tmp] becomes the public
    instance of the snapshot ([undefined] if it has none) and one line is
    logged. *)
Theorem makeGlobal_instance (id data : value) (p : addr) (s : Agent) :
  snapshot s id = Some data →
  _makeGlobal id (VStr "instance") s =
  (Ret tt,
   set_console (λ l, l ++ [("log", [VStr "$tmp ="; field data "publicInstance"])])
     (set_global (insert "$tmp" (field data "publicInstance")) s)) ∧
  _makeGlobal id (VArr p [VStr "publicInstance"]) s =
  _makeGlobal id (VStr "instance") s.
Proof.
  intros Hsnap. unfold snapshot in Hsnap.
  destruct (elementData s !! key_of id) as [d|] eqn:Hd; [|discriminate].
  destruct (truthy d) eqn:Ht; [|discriminate]. injection Hsnap as ->.
  unfold _makeGlobal. rewrite !(bind_ret_eq _ _ _ _ _ (gets_eq _ s)), Hd.
  simpl (default _ _). rewrite Ht. cbn [is_instance getIn reduce]. simpl String.eqb.
  cbn iota. unfold getIn_step. cbn [to_key]. rewrite Ht.
  rewrite (get_field data "publicInstance" Ht). split; reflexivity.
Qed.

(** X12.  For an identity with a snapshot, a path that is neither
    ['instance'] nor an object -- another string, a number, [undefined] --
    makes [_makeGlobal] throw a TypeError before anything is written or
    logged. *)
Theorem makeGlobal_bad_path (id data path : value) (s : Agent) :
  snapshot s id = Some data →
  ref_of path = None →
  is_instance path = false →
  ∃ msg, _makeGlobal id path s = (Throw (TypeError msg), s).
Proof.
  intros Hsnap Hp Hi. unfold snapshot in Hsnap.
  destruct (elementData s !! key_of id) as [d|] eqn:Hd; [|discriminate].
  destruct (truthy d) eqn:Ht; [|discriminate]. injection Hsnap as ->.
  eexists. unfold _makeGlobal. rewrite (bind_ret_eq _ _ _ _ _ (gets_eq _ s)), Hd.
  simpl (default _ _). rewrite Ht, Hi.
  destruct path; try discriminate; reflexivity.
Qed.

(** ** The selected instance *)

(** The [selected] command of the frontend is emitted as it comes, and the
    listener of the constructor stores the public instance of the selected
    snapshot in [$re] when there is a truthy one. *)
Lemma on_bridge_selected_eq (id : value) (s : Agent) :
  on_bridge_selected id s =
  (Ret tt,
   let s1 := set_emitted (λ l, l ++ [Event "selected" [id]]) s in
   match snapshot s id with
   | Some data =>
       if truthy (field data "publicInstance")
       then set_global (insert "$re" (field data "publicInstance")) s1
       else s1
   | None => s1
   end).
Proof.
  unfold on_bridge_selected, emit, on_selected, snapshot, bind, modify, gets, lift.
  cbn -[get field truthy].
  destruct (elementData s !! key_of id) as [d|]; cbn -[get field truthy]; [|reflexivity].
  destruct (truthy d) eqn:Ht; [|reflexivity].
  rewrite (get_field d "publicInstance" Ht).
  destruct (truthy (field d "publicInstance")); reflexivity.
Qed.

(** X13.  Selecting a component that was mounted with a public instance
    puts that instance in [$re]: the snapshot is in the store under the
    token of the component even when no payload could be made for it.  Once
    the component is unmounted, selecting its old identity leaves the global
    object as it is. *)
Theorem selected_after_mount
    (renderer : string) (H data : value) (a : addr) (t : string) (s : Agent) :
  ref_of H = Some a →
  ids s !! a = Some t →
  truthy data = true →
  truthy (field data "publicInstance") = true →
  let sm := after (onMounted renderer H data) s in
  let su := after (onUnmounted H) sm in
  global (after (on_bridge_selected (VStr t)) sm) !! "$re" =
  Some (field data "publicInstance") ∧
  global (after (on_bridge_selected (VStr t)) su) = global su.
Proof.
  intros Er Hi Hd Hp sm su.
  pose proof (getId_known H a t s Er Hi) as E1.
  assert (Hm : ids sm !! a = Some t).
  { eapply registry_steps_kept; [|apply (tracks_exec (OnMounted renderer H data))|exact Hi].
    intros []. }
  assert (Hs : elementData sm !! KStr t = Some data).
  { subst sm. unfold after. rewrite (onMounted_eq _ _ _ _ _ _ E1). cbn [key_of].
    set (s0 := set_elementData (insert (KStr t) data)
                 (set_renderers (insert (KStr t) renderer) s)).
    assert (Hkeep : keeps (λ s1, elementData s1 = elementData s0)
              (let! send := make_send (VStr t) data in emit "mount" [send])).
    { apply keeps_bind; [|intros send].
      - apply keeps_make_send.
        + intros s1 e i c n H0. exact H0.
        + apply keeps_getId_registry_only. intros s1 r i n H0. exact H0.
      - apply keeps_emit.
        + intros s1 e i c n H0. exact H0.
        + intros s1 g H0. exact H0. }
    pose proof (Hkeep s0 eq_refl) as Ha. unfold after in Ha. rewrite Ha.
    subst s0. cbn. apply lookup_insert_eq. }
  split.
  - unfold after. rewrite on_bridge_selected_eq. unfold snapshot. cbn [key_of snd].
    rewrite Hs, Hd, Hp. cbn. apply lookup_insert_eq.
  - assert (Hu : elementData su !! KStr t = None).
    { subst su. unfold after. rewrite (onUnmounted_known H a t sm Er Hm). cbn.
      apply lookup_delete_eq. }
    unfold after. rewrite on_bridge_selected_eq. unfold snapshot. cbn [key_of snd].
    rewrite Hu. reflexivity.
Qed.

(** ** Selecting from the page *)

Lemma getIDForNode_eq node s :
  getIDForNode node s =
  match first_match s node (enumeration_order s) with
  | Some found =>
      getId found (set_invoked (λ l, l ++ tried s node (enumeration_order s)) s)
  | None => (Ret VNull, set_invoked (λ l, l ++ tried s node (enumeration_order s)) s)
  end.
Proof.
  unfold getIDForNode. rewrite (bind_ret_eq _ _ _ _ _ (gets_eq _ s)).
  apply getIDForNode_loop_spec; reflexivity.
Qed.

Lemma truthy_token t : t ≠ EmptyString → truthy (VStr t) = true.
Proof.
  intros Ht. cbn [truthy]. apply negb_true_iff, String.eqb_neq, Ht.
Qed.

(** X14.  [selectFromDOMNode] asks the producers as [getIDForNode] does.
    When none of them knows the node it emits nothing and returns; when the
    first match is a registered object it emits one [setSelection] with the
    token of the object and the [quiet] it was given.  It never throws on
    account of a producer. *)
Theorem selectFromDOMNode_selects
    (node quiet node' quiet' found : value) (a : addr) (t : string) (s s' : Agent) :
  first_match s node (enumeration_order s) = None →
  first_match s' node' (enumeration_order s') = Some found →
  ref_of found = Some a →
  ids s' !! a = Some t →
  t ≠ EmptyString →
  selectFromDOMNode node quiet s =
  (Ret tt, set_invoked (λ l, l ++ tried s node (enumeration_order s)) s) ∧
  selectFromDOMNode node' quiet' s' =
  (Ret tt,
   set_emitted
     (λ l, l ++ [Event "setSelection"
                   [VObj (Loc (allocs s')) [("id", VStr t); ("quiet", quiet')]]])
     (set_allocs (S (allocs s'))
        (set_invoked (λ l, l ++ tried s' node' (enumeration_order s')) s'))).
Proof.
  intros Hnone Hsome Er Hi Ht. split.
  - unfold selectFromDOMNode. unfold bind at 1. rewrite getIDForNode_eq, Hnone. reflexivity.
  - unfold selectFromDOMNode. unfold bind at 1. rewrite getIDForNode_eq, Hsome.
    rewrite (getId_known found a t _ Er) by exact Hi.
    rewrite (truthy_token t Ht). reflexivity.
Qed.

(** X15.  [selectFromReactInstance] given [null], [undefined] or another
    falsy value logs that there is no instance id and selects nothing; given
    a registered object it emits one [setSelection] with the token of the
    object. *)
Theorem selectFromReactInstance_selects
    (instance quiet instance' quiet' : value) (a : addr) (t : string) (s s' : Agent) :
  truthy instance = false →
  ref_of instance' = Some a →
  ids s' !! a = Some t →
  t ≠ EmptyString →
  selectFromReactInstance instance quiet s =
  (Ret tt, set_console (λ l, l ++ [("log", [VStr "no instance id"; instance])]) s) ∧
  selectFromReactInstance instance' quiet' s' =
  (Ret tt,
   set_emitted
     (λ l, l ++ [Event "setSelection"
                   [VObj (Loc (allocs s')) [("id", VStr t); ("quiet", quiet')]]])
     (set_allocs (S (allocs s')) s')).
Proof.
  intros Hf Er Hi Ht. split.
  - unfold selectFromReactInstance.
    assert (E : ref_of instance = None) by (destruct instance; try discriminate; reflexivity).
    rewrite (bind_ret_eq _ _ _ _ _ (getId_primitive _ s E)), Hf. reflexivity.
  - unfold selectFromReactInstance.
    rewrite (bind_ret_eq _ _ _ _ _ (getId_known _ _ _ _ Er Hi)), (truthy_token t Ht).
    reflexivity.
Qed.

(** ** Scrolling to a node *)

(** X16.  When the native node of [id] is found, [scrollToNode] scrolls
    the node itself if it is an element and its parent otherwise: with
    [scrollIntoViewIfNeeded] if the element has it, else with
    [scrollIntoView], else not at all; then it highlights [id].  Without an
    element it prints a warning and highlights nothing, and a scroll
    function that throws leaves the highlight out. *)
Theorem scrollToNode_scrolls (id node : value) (s s1 : Agent) :
  getNodeForID id s = (Ret node, s1) →
  truthy node = true →
  scrollToNode id s =
  if truthy (scroll_target node) then
    match scroll_method (scroll_target node) with
    | Some f =>
        match call_fn f [] with
        | Ret _ => highlight id (set_invoked (λ l, l ++ [Call f []]) s1)
        | Throw e => (Throw e, set_invoked (λ l, l ++ [Call f []]) s1)
        end
    | None => highlight id s1
    end
  else
    (Ret tt,
     set_console (λ l, l ++ [("warn", [VStr "unable to get the element for scrolling"])]) s1).
Proof.
  intros E Hn. unfold scrollToNode. rewrite (bind_ret_eq _ _ _ _ _ E), Hn.
  unfold bind at 1. unfold lift at 1. rewrite (get_field node "nodeType" Hn).
  assert (Het : (if strict_equal (field node "nodeType") ELEMENT_NODE then ret node
                 else lift (get node "parentElement")) s1 =
                (Ret (scroll_target node), s1)).
  { unfold scroll_target. destruct (strict_equal _ _); [reflexivity|].
    unfold lift. rewrite (get_field node "parentElement" Hn). reflexivity. }
  rewrite (bind_ret_eq _ _ _ _ _ Het).
  destruct (truthy (scroll_target node)) eqn:Hel; [|reflexivity].
  unfold scroll_method.
  unfold bind at 1. unfold lift at 1.
  rewrite (get_field _ "scrollIntoViewIfNeeded" Hel).
  destruct (field (scroll_target node) "scrollIntoViewIfNeeded") as [| | | | |f| |]
    eqn:Hp; cbn [is_function].
  6: { unfold call, bind, modify, lift. cbn. destruct (call_fn f []); reflexivity. }
  all: unfold bind at 1; unfold bind at 1; unfold lift at 1;
    rewrite (get_field _ "scrollIntoView" Hel);
    destruct (field (scroll_target node) "scrollIntoView") as [| | | | |g| |];
    cbn [is_function]; try reflexivity;
    unfold call, bind, modify, lift; cbn; destruct (call_fn g []); reflexivity.
Qed.

(** ** Registering a renderer *)




(** ** Lifecycle calls, composed *)

(** X18.  Adding the same root twice leaves it in the root set once and
    emits [root] twice with the same identity; [addRoot] gives the root
    neither a renderer nor a snapshot. *)
Theorem addRoot_twice (renderer renderer' : string) (H : value) (s : Agent) :
  ∃ id,
    let s1 := after (addRoot renderer H) s in
    let s2 := after (addRoot renderer' H) s1 in
    result (getId H) s = Ret id ∧
    (key_of id ∈ roots s1) ∧
    roots s2 = roots s1 ∧
    emitted s2 = emitted s ++ [Event "root" [id]; Event "root" [id]] ∧
    renderers s2 = renderers s ∧
    elementData s2 = elementData s.
Proof.
  destruct (getId_returns H s) as (id & Hid). exists id.
  destruct (getId H s) as [o s1] eqn:E1. unfold result in Hid. rewrite E1 in Hid.
  cbn [fst] in Hid. subst o.
  pose proof (getId_registry_only H s) as Hro. unfold after in Hro. rewrite E1 in Hro.
  cbn [snd] in Hro. destruct (registry_only_fields _ _ Hro) as (Hed & Hem & _ & Hre & _).
  cbv zeta. unfold result, after. rewrite (addRoot_eq renderer H s id s1 E1). cbn [fst snd].
  rewrite (addRoot_eq renderer' H _ id _
             (getId_again H s id s1
                (set_emitted (λ l, l ++ [Event "root" [id]])
                   (set_roots (λ r, {[key_of id]} ∪ r) s1)) E1 eq_refl)).
  rewrite E1. cbn. rewrite Hem, Hre, Hed, <- app_assoc. repeat split; try reflexivity.
  - apply elem_of_union_l, elem_of_singleton. reflexivity.
  - apply set_eq. intros k. rewrite !elem_of_union. tauto.
Qed.

(** X19.  Mounting and then updating a registered component leaves the
    last snapshot in the store, under the token of the component and with
    the renderer of the mount, and the component registered as before --
    also when a payload could not be made, for the store takes the snapshot
    before the payload is made. *)
Theorem snapshot_last_write (renderer : string) (H first last : value) (a : addr) (t : string)
    (s : Agent) :
  ref_of H = Some a →
  ids s !! a = Some t →
  let s' := run [OnMounted renderer H first; OnUpdated H last] s in
  elementData s' !! KStr t = Some last ∧
  renderers s' !! KStr t = Some renderer ∧
  ids s' !! a = Some t.
Proof.
  intros Er Hi s'. subst s'. unfold run. cbn [fold_left exec].
  pose proof (getId_known H a t s Er Hi) as E1.
  assert (Hkeep : ∀ (X : gmap key value) (Y : gmap key string) id data name,
            keeps (λ s0, elementData s0 = X ∧ renderers s0 = Y)
              (let! send := make_send id data in emit name [send])).
  { intros X Y id data name. apply keeps_bind; [|intros send].
    - apply keeps_make_send.
      + intros s0 e i c n H0. exact H0.
      + apply keeps_getId_registry_only. intros s0 r i n H0. exact H0.
    - apply keeps_emit.
      + intros s0 e i c n H0. exact H0.
      + intros s0 g H0. exact H0. }
  assert (Hm : ids (after (onMounted renderer H first) s) !! a = Some t).
  { eapply registry_steps_kept; [|apply (tracks_exec (OnMounted renderer H first))|exact Hi].
    intros []. }
  set (s1 := after (onMounted renderer H first) s) in *.
  assert (Hs1 : elementData s1 !! KStr t = Some first ∧ renderers s1 !! KStr t = Some renderer).
  { subst s1. unfold after. rewrite (onMounted_eq _ _ _ _ _ _ E1). cbn [key_of].
    set (sm := set_elementData (insert (KStr t) first)
                 (set_renderers (insert (KStr t) renderer) s)).
    destruct (Hkeep (elementData sm) (renderers sm) (VStr t) first "mount" sm
                (conj eq_refl eq_refl)) as [Ha Hb].
    unfold after in Ha, Hb. rewrite Ha, Hb. subst sm. cbn.
    rewrite !lookup_insert_eq. split; reflexivity. }
  pose proof (getId_known H a t s1 Er Hm) as E2.
  set (su := set_elementData (insert (KStr t) last) s1).
  destruct (Hkeep (elementData su) (renderers su) (VStr t) last "update" su
              (conj eq_refl eq_refl)) as [Ha Hb].
  unfold after in Ha, Hb.
  split; [|split].
  - unfold after. rewrite (onUpdated_eq _ _ _ _ _ E2). cbn [key_of]. fold su.
    rewrite Ha. subst su. cbn. apply lookup_insert_eq.
  - unfold after. rewrite (onUpdated_eq _ _ _ _ _ E2). cbn [key_of]. fold su.
    rewrite Hb. subst su. cbn. apply Hs1.
  - eapply registry_steps_kept; [|apply (tracks_exec (OnUpdated H last))|exact Hm].
    intros [].
Qed.

(** X20.  A lifecycle call takes the identity of a registered object in
    place of the object: [addRoot], [onMounted] and [onUpdated] do the same
    for the token as for the object.  [onUnmounted] does not: given the token
    it clears the store but the object stays registered under it. *)
Theorem identity_for_handle
    (renderer : string) (H data : value) (a : addr) (t : string) (s : Agent) :
  ref_of H = Some a →
  ids s !! a = Some t →
  addRoot renderer (VStr t) s = addRoot renderer H s ∧
  onMounted renderer (VStr t) data s = onMounted renderer H data s ∧
  onUpdated (VStr t) data s = onUpdated H data s ∧
  elementData (after (onUnmounted (VStr t)) s) !! KStr t = None ∧
  ids (after (onUnmounted (VStr t)) s) !! a = Some t ∧
  ids (after (onUnmounted H) s) !! a = None.
Proof.
  intros Er Hi.
  pose proof (getId_known H a t s Er Hi) as E1.
  assert (E2 : getId (VStr t) s = (Ret (VStr t), s)) by (apply getId_primitive; reflexivity).
  repeat split.
  - rewrite (addRoot_eq _ _ _ _ _ E1), (addRoot_eq _ _ _ _ _ E2). reflexivity.
  - rewrite (onMounted_eq _ _ _ _ _ _ E1), (onMounted_eq _ _ _ _ _ _ E2). reflexivity.
  - rewrite (onUpdated_eq _ _ _ _ _ E1), (onUpdated_eq _ _ _ _ _ E2). reflexivity.
  - unfold after, onUnmounted. rewrite (bind_ret_eq _ _ _ _ _ E2). cbn.
    apply lookup_delete_eq.
  - unfold after, onUnmounted. rewrite (bind_ret_eq _ _ _ _ _ E2). cbn. exact Hi.
  - unfold after. rewrite (onUnmounted_known H a t s Er Hi). cbn. apply lookup_delete_eq.
Qed.

(** ** The capabilities of the page *)

Lemma assign_other k (target l : list (string * value)) :
  ¬ In k (List.map fst l) →
  lookup_prop k (fold_left (λ ps p, set_prop (fst p) (snd p) ps) l target) =
  lookup_prop k target.
Proof.
  revert target. induction l as [|p l IH]; intros target Hn; [reflexivity|].
  cbn [fold_left]. rewrite IH.
  - apply lookup_set_prop_ne. intros E. apply Hn. left. exact E.
  - intros Hin. apply Hn. right. exact Hin.
Qed.

Lemma assign_last k (v : value) (target l : list (string * value)) :
  NoDup (List.map fst l) → In (k, v) l →
  lookup_prop k (fold_left (λ ps p, set_prop (fst p) (snd p) ps) l target) = Some v.
Proof.
  revert target. induction l as [|p l IH]; intros target Hd Hin; [destruct Hin|].
  cbn [List.map] in Hd. apply NoDup_cons in Hd as [Hp Hd]. cbn [fold_left].
  destruct Hin as [->|Hin].
  - cbn [fst snd]. rewrite assign_other.
    + apply lookup_set_prop_eq.
    + intros Hin. apply Hp. apply list_elem_of_In. exact Hin.
  - apply IH; assumption.
Qed.

(** X21.  When the caller passes no capabilities, the constructor's are
    [scroll], [dom] and [editTextContent], in this order, the last one
    [false].  [scroll] can hold only where [dom] is [true]; on a page
    without a document both are the missing document itself, not [false]. *)
Theorem capabilities_defaults (window capabilities : value) (caps : list (string * value)) :
  own_props capabilities = [] →
  capabilities_of window capabilities = Ret caps →
  ∃ dom scroll,
    caps = [("scroll", scroll); ("dom", dom); ("editTextContent", VBool false)] ∧
    (truthy scroll = true → dom = VBool true) ∧
    (truthy dom = false → scroll = dom) ∧
    (truthy (field window "document") = false → dom = field window "document").
Proof.
  intros Hc. unfold capabilities_of, assign. rewrite Hc. cbn [fold_left].
  unfold isReactDOM_of, scroll_of, field.
  destruct (get window "document") as [document|e]; cbn [and_then]; [|discriminate].
  destruct (truthy document) eqn:Hd; cbn [and_then].
  - destruct (get document "createElement") as [f|e]; cbn [and_then]; [|discriminate].
    destruct (is_function f); cbn [truthy and_then].
    + destruct (get document "body") as [body|e]; cbn [and_then]; [|discriminate].
      destruct (get body "scrollIntoView") as [g|e]; cbn [and_then]; [|discriminate].
      intros [= <-]. eexists _, _. split; [reflexivity|].
      repeat split; try reflexivity; discriminate.
    + intros [= <-]. eexists _, _. split; [reflexivity|].
      repeat split; try reflexivity; discriminate.
  - rewrite Hd. cbn [and_then]. intros [= <-]. eexists _, _. split; [reflexivity|].
    repeat split; try reflexivity. rewrite Hd. discriminate.
Qed.

(** X22.  On a page whose document can create elements but has no body,
    the constructor throws a TypeError, whatever capabilities it is given:
    [scroll] is read from [window.document.body]. *)
Theorem capabilities_no_body
    (window capabilities document body : value) (createElement : addr) :
  get window "document" = Ret document →
  get document "createElement" = Ret (VFun createElement) →
  get document "body" = Ret body →
  body = VUndef ∨ body = VNull →
  ∃ msg, capabilities_of window capabilities = Throw (TypeError msg).
Proof.
  intros Hd Hc Hb Hnone. unfold capabilities_of, isReactDOM_of, scroll_of.
  rewrite Hd. cbn [and_then].
  assert (Ht : truthy document = true)
    by (destruct document; try discriminate; try reflexivity;
        cbn in Hc; unfold string_prop in Hc;
        repeat match type of Hc with context [if ?b then _ else _] => destruct b end;
        repeat match type of Hc with context [match ?b with _ => _ end] => destruct b end;
        discriminate).
  rewrite Ht. cbn [and_then]. rewrite Hc. cbn [and_then is_function truthy].
  rewrite Hb. cbn [and_then].
  destruct Hnone as [-> | ->]; eexists; reflexivity.
Qed.

(** X23.  What the caller passes wins: every capability it names has the
    value it gave, and every other one is as the constructor computes it
    without a caller. *)
Theorem capabilities_override (window capabilities : value) (caps : list (string * value)) :
  NoDup (List.map fst (own_props capabilities)) →
  capabilities_of window capabilities = Ret caps →
  ∃ defaults,
    capabilities_of window VUndef = Ret defaults ∧
    (∀ k v, In (k, v) (own_props capabilities) → lookup_prop k caps = Some v) ∧
    (∀ k, ¬ In k (List.map fst (own_props capabilities)) →
          lookup_prop k caps = lookup_prop k defaults).
Proof.
  intros Hd. unfold capabilities_of.
  destruct (isReactDOM_of window) as [dom|e]; cbn [and_then]; [|discriminate].
  destruct (scroll_of window dom) as [scroll|e]; cbn [and_then]; [|discriminate].
  intros [= <-]. eexists. split; [reflexivity|]. split.
  - intros k v Hin. apply assign_last; assumption.
  - intros k Hn. unfold assign at 1. rewrite assign_other by exact Hn. reflexivity.
Qed.

(** ** The selection of the page *)

Lemma strict_equal_refl v : strict_equal v v = true.
Proof. apply bool_decide_eq_true_2. reflexivity. Qed.

Lemma strict_equal_key a b : strict_equal a b = true → key_of a = key_of b.
Proof. apply bool_decide_eq_true_1. Qed.

(** X24.  [checkSelection] settles: whatever it did, it remembers the
    [$0] of the page, does not touch the hook, and run again right after it
    does nothing at all. *)
Theorem checkSelection_settles (p : Inspector) :
  let p' := snd (checkSelection p) in
  checkSelection p' = (Ret tt, p') ∧
  strict_equal (default VUndef (hook p !! "$0")) (_prevSelected p') = true ∧
  hook p' = hook p.
Proof.
  cbv zeta. unfold checkSelection at 2 3 4 5. cbv zeta. cbn [hook _prevSelected agent].
  destruct (strict_equal (default VUndef (hook p !! "$0")) (_prevSelected p)) eqn:E1;
    cbn [negb snd].
  - unfold checkSelection. cbv zeta. rewrite E1. repeat split.
  - assert (Hsettled : ∀ q, _prevSelected q = default VUndef (hook p !! "$0") →
                            hook q = hook p → checkSelection q = (Ret tt, q)).
    { intros q Hq Hh. unfold checkSelection. cbv zeta. rewrite Hh, Hq, strict_equal_refl.
      reflexivity. }
    destruct (strict_equal (default VUndef (hook p !! "$0"))
                (default VUndef (hook p !! "$node"))) eqn:E2; cbn [negb snd].
    + split; [apply Hsettled; reflexivity|]. split; [apply strict_equal_refl|reflexivity].
    + unfold on_agent. cbn [agent _prevSelected hook].
      destruct (selectFromDOMNode _ _ (agent p)) as [r a]. cbn [snd].
      split; [apply Hsettled; reflexivity|]. split; [apply strict_equal_refl|reflexivity].
Qed.

(** X25.  No echo: when the node the frontend asked to put in [$node] is
    the one the page has in [$0], [checkSelection] selects nothing -- it
    asks no producer and emits no event -- and remembers the node.  The
    lookup of [putSelectedNode] itself shows only in the record of
    invocations. *)
Theorem checkSelection_no_echo (id node : value) (p : Inspector) :
  result (getNodeForID id) (agent p) = Ret node →
  strict_equal (default VUndef (hook p !! "$0")) node = true →
  let p1 := snd (putSelectedNode id p) in
  let p2 := snd (checkSelection p1) in
  fst (putSelectedNode id p) = Ret tt ∧
  hook p1 !! "$node" = Some node ∧
  invoked_only (agent p) (agent p1) ∧
  fst (checkSelection p1) = Ret tt ∧
  agent p2 = agent p1 ∧
  strict_equal node (_prevSelected p2) = true.
Proof.
  intros Hn H0. cbv zeta.
  pose proof (getNodeForID_invoked_only id (agent p)) as He.
  unfold result in Hn. unfold after in He.
  unfold putSelectedNode, on_agent.
  destruct (getNodeForID id (agent p)) as [r a1]. cbn [fst snd] in Hn, He. subst r.
  unfold set_hook. cbn [fst snd agent hook _prevSelected].
  split; [reflexivity|]. split; [apply lookup_insert_eq|]. split; [exact He|].
  apply strict_equal_key in H0.
  unfold checkSelection. cbv zeta. cbn [agent hook _prevSelected].
  rewrite lookup_insert_ne by discriminate. rewrite lookup_insert_eq.
  simpl (default VUndef (Some node)).
  destruct (strict_equal (default VUndef (hook p !! "$0")) (_prevSelected p)) eqn:E1;
    cbn [negb fst snd agent _prevSelected].
  - repeat split. apply strict_equal_key in E1.
    apply bool_decide_eq_true_2. rewrite <- E1. symmetry. exact H0.
  - assert (E2 : strict_equal (default VUndef (hook p !! "$0")) node = true)
      by (apply bool_decide_eq_true_2; exact H0).
    rewrite E2. cbn [negb fst snd agent _prevSelected]. repeat split.
    apply bool_decide_eq_true_2. symmetry. exact H0.
Qed.

(** X26.  When the page has a new node in [$0], one that is neither the
    node remembered nor the one in [$node], and the first producer that
    knows it names a registered component, [checkSelection] emits one
    [setSelection] for the token of the component, marked quiet, and
    remembers the node. *)
Theorem checkSelection_selects
    (n found : value) (a : addr) (t : string) (p : Inspector) :
  hook p !! "$0" = Some n →
  strict_equal n (_prevSelected p) = false →
  strict_equal n (default VUndef (hook p !! "$node")) = false →
  first_match (agent p) n (enumeration_order (agent p)) = Some found →
  ref_of found = Some a →
  ids (agent p) !! a = Some t →
  t ≠ EmptyString →
  checkSelection p =
  (Ret tt,
   mkInspector
     (set_emitted
        (λ l, l ++ [Event "setSelection"
                      [VObj (Loc (allocs (agent p))) [("id", VStr t); ("quiet", VBool true)]]])
        (set_allocs (S (allocs (agent p)))
           (set_invoked (λ l, l ++ tried (agent p) n (enumeration_order (agent p)))
              (agent p))))
     n (hook p)).
Proof.
  intros H0 E1 E2 Hm Er Hi Ht. unfold checkSelection. cbv zeta. rewrite H0.
  simpl (default VUndef (Some n)). rewrite E1. cbn [negb hook]. rewrite E2. cbn [negb].
  unfold on_agent. cbn [agent _prevSelected hook].
  unfold selectFromDOMNode. unfold bind at 1. rewrite getIDForNode_eq, Hm.
  rewrite (getId_known found a t _ Er) by exact Hi.
  rewrite (truthy_token t Ht). reflexivity.
Qed.

(** X27.  [putSelectedInstance] always writes [$inst], so that no instance
    of an earlier selection stays there: the public instance of the snapshot
    when it has a truthy one, and [null] in every other case -- never
    [undefined] or another falsy value.  It touches nothing else. *)
Theorem putSelectedInstance_sets (id : value) (p : Inspector) :
  ∃ v,
    putSelectedInstance id p = (Ret tt, set_hook "$inst" v p) ∧
    (v = VNull ∨ truthy v = true) ∧
    (snapshot (agent p) id = None → v = VNull) ∧
    (∀ data, snapshot (agent p) id = Some data →
             truthy (field data "publicInstance") = true →
             v = field data "publicInstance").
Proof.
  unfold putSelectedInstance, snapshot. cbv zeta.
  destruct (elementData (agent p) !! key_of id) as [d|]; simpl (default _ _).
  - destruct (truthy d) eqn:Hd.
    + rewrite (get_field d "publicInstance" Hd).
      destruct (truthy (field d "publicInstance")) eqn:Hp.
      * eexists. split; [reflexivity|]. split; [right; exact Hp|].
        split; [discriminate|]. intros data [= <-] _. reflexivity.
      * eexists. split; [reflexivity|]. split; [left; reflexivity|].
        split; [discriminate|]. intros data [= <-] Hp'. rewrite Hp in Hp'. discriminate.
    + eexists. split; [reflexivity|]. split; [left; reflexivity|].
      split; [reflexivity|]. discriminate.
  - cbn [truthy]. eexists. split; [reflexivity|]. split; [left; reflexivity|].
    split; [reflexivity|]. discriminate.
Qed.

End Agent.

(** * Concrete runs *)

Lemma sample_guid_unique m n : sample_guid m = sample_guid n → m = n.
Proof.
  unfold sample_guid. cbn [String.append]. intros E. injection E as E.
  exact (pretty_nat_inj m n E).
Qed.

(** C1 fails as stated.  A producer mounts a root with one child: the
    store keeps the child as the producer passed it, an object and no
    token. *)
Lemma stored_children_raw :
  result (getId sample_guid sample_root)
    (run sample_guid sample_call [OnMounted "dom" sample_root sample_data] (new_Agent ∅)) =
  Ret (VStr "g0") ∧
  elementData
    (run sample_guid sample_call [OnMounted "dom" sample_root sample_data] (new_Agent ∅))
    !! KStr "g0" = Some sample_data ∧
  children_items sample_data = [sample_child] ∧
  forallb is_token (children_items sample_data) = false ∧
  object_like sample_child = true.
Proof. vm_compute. repeat split. Qed.

Lemma lifecycle_children_witness :
  lookup_prop "children" (own_props sample_data) = Some (VArr (Ext 4) [sample_child]) ∧
  ∃ id payload c' tokens,
    let s' := after (onMounted sample_guid sample_call "dom" sample_root sample_data)
                (new_Agent ∅) in
    result (onMounted sample_guid sample_call "dom" sample_root sample_data) (new_Agent ∅) =
    Ret tt ∧
    result (getId sample_guid sample_root) (new_Agent ∅) = Ret id ∧
    elementData s' !! key_of id = Some sample_data ∧
    emitted s' = emitted (new_Agent ∅) ++ [Event "mount" [payload]] ∧
    get payload "children" = Ret (VArr c' tokens) ∧
    Forall2 (identity_in s') [sample_child] tokens ∧
    Forall (λ i, object_like i = false) tokens.
Proof.
  split; [reflexivity|].
  exact (proj1 (lifecycle_children sample_guid sample_call "dom" sample_root sample_data
                  (Ext 4) [sample_child] (new_Agent ∅) eq_refl)).
Defined.

Lemma getId_contract_witness :
  getId sample_guid (VStr "text") (new_Agent ∅) = (Ret (VStr "text"), new_Agent ∅) ∧
  result (getId sample_guid sample_root)
    (run sample_guid sample_call
       [OnMounted "dom" sample_root sample_data; OnUnmounted sample_child; Scroll]
       (after (getId sample_guid sample_root) (new_Agent ∅))) =
  result (getId sample_guid sample_root) (new_Agent ∅) ∧
  (result (getId sample_guid sample_root)
     (run sample_guid sample_call
        [AddRoot "dom" sample_root; OnMounted "dom" sample_child sample_app] (new_Agent ∅)) =
   Ret (VStr "g0") ∧
   result (getId sample_guid sample_child)
     (run sample_guid sample_call
        [AddRoot "dom" sample_root; OnMounted "dom" sample_child sample_app] (new_Agent ∅)) =
   Ret (VStr "g1") ∧
   "g0" ≠ "g1").
Proof.
  apply (getId_contract sample_guid sample_call (VStr "text") sample_root sample_root
           sample_child (Ext 1) (Ext 1) (Ext 2)).
  - exact sample_guid_unique.
  - reflexivity.
  - reflexivity.
  - repeat constructor; simpl; try tauto; discriminate.
  - apply reachable_run.
  - reflexivity.
  - reflexivity.
  - discriminate.
  - vm_compute. reflexivity.
  - vm_compute. reflexivity.
Defined.

Lemma onUnmounted_clears_witness :
  let s := run sample_guid sample_call
             [AddRoot "dom" sample_root; OnMounted "dom" sample_root sample_app]
             (new_Agent ∅) in
  let s' := after (onUnmounted sample_guid sample_root) s in
  ids s !! Ext 1 = Some "g0" ∧
  roots s = {[KStr "g0"]} ∧
  result (onUnmounted sample_guid sample_root) s = Ret tt ∧
  elementData s' !! KStr "g0" = None ∧
  (KStr "g0" ∉ roots s') ∧
  renderers s' !! KStr "g0" = None ∧
  ids s' !! Ext 1 = None ∧
  ∃ j, result (getId sample_guid sample_root) s' = Ret (VStr j) ∧
       j = sample_guid (guid_calls s') ∧
       guid_calls (after (getId sample_guid sample_root) s') = S (guid_calls s') ∧
       ids (after (getId sample_guid sample_root) s') !! Ext 1 = Some j ∧
       j ≠ "g0".
Proof.
  cbv zeta. split; [vm_compute; reflexivity|]. split; [vm_compute; reflexivity|].
  apply (onUnmounted_clears sample_guid sample_call sample_root (Ext 1) "g0").
  - exact sample_guid_unique.
  - apply reachable_run.
  - reflexivity.
  - vm_compute. reflexivity.
Defined.

(** C4.  A component is mounted and unmounted: the store, the roots, the
    renderers and [ids] forget it, [reactElements] still maps its identity
    to it. *)
Lemma reactElements_after_unmount :
  reactElements
    (run sample_guid sample_call
       [OnMounted "dom" sample_root sample_app; OnUnmounted sample_root] (new_Agent ∅))
    !! KStr "g0" = Some sample_root ∧
  elementData
    (run sample_guid sample_call
       [OnMounted "dom" sample_root sample_app; OnUnmounted sample_root] (new_Agent ∅))
    !! KStr "g0" = None ∧
  ids
    (run sample_guid sample_call
       [OnMounted "dom" sample_root sample_app; OnUnmounted sample_root] (new_Agent ∅))
    !! Ext 1 = None.
Proof. vm_compute. repeat split. Qed.

(** C5 fails as stated.  Without an updater the payload says
    [canUpdate: undefined], not [false]. *)
Lemma mount_scenario_canUpdate :
  ∃ payload,
    emitted
      (after (run! addRoot sample_guid "dom" sample_root in
              onMounted sample_guid sample_call "dom" sample_root sample_app)
         (new_Agent ∅)) =
    [Event "root" [VStr "g0"]; Event "mount" [payload]] ∧
    get payload "canUpdate" = Ret VUndef ∧
    get payload "canUpdate" ≠ Ret (VBool false).
Proof.
  eexists. split; [vm_compute; reflexivity|]. split; [reflexivity|]. discriminate.
Qed.

(** C6 fails as stated.  For a snapshot mounted for a renderer that was
    never registered there is no native node, and [highlight] and
    [highlightMany] throw. *)
Lemma highlight_unregistered_renderer :
  snapshot
    (run sample_guid sample_call [OnMounted "dom" sample_root sample_app] (new_Agent ∅))
    (VStr "g0") = Some sample_app ∧
  resolved_node sample_call
    (run sample_guid sample_call [OnMounted "dom" sample_root sample_app] (new_Agent ∅))
    (VStr "g0") = None ∧
  result (highlight sample_call (VStr "g0"))
    (run sample_guid sample_call [OnMounted "dom" sample_root sample_app] (new_Agent ∅)) =
  Throw (TypeError "Cannot read property getNativeFromReactElement") ∧
  result (highlightMany sample_call [VStr "g0"])
    (run sample_guid sample_call [OnMounted "dom" sample_root sample_app] (new_Agent ∅)) =
  Throw (TypeError "Cannot read property getNativeFromReactElement").
Proof. vm_compute. repeat split. Qed.

Lemma highlight_when_lookups_return_witness :
  let s := run sample_guid sample_call
             [SetReactInternals "dom" sample_helpers;
              OnMounted "dom" sample_root sample_app] (new_Agent ∅) in
  node_of sample_call s (VStr "g0") = Ret sample_node ∧
  node_of sample_call s (VStr "gone") = Ret VNull ∧
  (result (highlightMany sample_call [VStr "g0"; VStr "gone"]) s = Ret tt ∧
   emitted (after (highlightMany sample_call [VStr "g0"; VStr "gone"]) s) =
   emitted s ++ [Event "highlightMany" [VArr (Loc 3) [sample_node]]]) ∧
  (result (highlight sample_call (VStr "g0")) s = Ret tt ∧
   emitted (after (highlight sample_call (VStr "g0")) s) =
   emitted s ++
     [Event "highlight"
        [VObj (Loc 3) [("node", sample_node); ("name", VStr "App"); ("props", VUndef)]]]).
Proof.
  cbv zeta. split; [vm_compute; reflexivity|]. split; [vm_compute; reflexivity|].
  apply (highlight_when_lookups_return sample_call [VStr "g0"; VStr "gone"] (VStr "g0")
           (run sample_guid sample_call
              [SetReactInternals "dom" sample_helpers;
               OnMounted "dom" sample_root sample_app] (new_Agent ∅))).
  - repeat constructor; eexists; vm_compute; reflexivity.
  - eexists; vm_compute; reflexivity.
Defined.

Lemma edit_command_witness :
  let s' := run sample_guid sample_call [OnMounted "dom" sample_root sample_input]
              (new_Agent ∅) in
  let path := VArr (Ext 50) [VStr "value"] in
  updater_slot s' (VStr "g0") "setInProps" = VFun (Ext 24) ∧
  _setProps sample_call (VStr "gone") path (VStr "b") (new_Agent ∅) =
  (Ret tt,
   set_console
     (λ l, l ++ [("warn", [VStr "trying to set props on a component that doesn't support it"])])
     (new_Agent ∅)) ∧
  _setProps sample_call (VStr "g0") path (VStr "b") s' =
  (Ret tt, set_invoked (λ l, l ++ [Call (Ext 24) [path; VStr "b"]]) s').
Proof.
  cbv zeta. split; [vm_compute; reflexivity|].
  apply (edit_command sample_call Props (VStr "gone") (VArr (Ext 50) [VStr "value"])
           (VStr "b") (VStr "g0") (VArr (Ext 50) [VStr "value"]) (VStr "b") (Ext 24)
           (new_Agent ∅)
           (run sample_guid sample_call [OnMounted "dom" sample_root sample_input]
              (new_Agent ∅))).
  - left. reflexivity.
  - vm_compute. reflexivity.
Defined.

(** C8 fails as stated.  Two producers are registered as ["2"] and then
    ["1"], and both know the node: the loop asks ["1"] first. *)
Lemma getIDForNode_index_names :
  let s := run sample_guid sample_call
             [AddRoot "2" sample_root; AddRoot "1" sample_child;
              SetReactInternals "2" sample_helpers;
              SetReactInternals "1" sample_helpers'] (new_Agent ∅) in
  registration_order s = ["2"; "1"] ∧
  first_match sample_call s sample_node (registration_order s) = Some sample_root ∧
  result (getId sample_guid sample_root) s = Ret (VStr "g0") ∧
  result (getIDForNode sample_guid sample_call sample_node) s = Ret (VStr "g1") ∧
  VStr "g1" ≠ VStr "g0".
Proof. cbv zeta. vm_compute. repeat split. discriminate. Qed.

Lemma getIDForNode_first_match_witness :
  let s := run sample_guid sample_call
             [AddRoot "dom" sample_root;
              SetReactInternals "native" sample_thrower;
              SetReactInternals "dom" sample_helpers] (new_Agent ∅) in
  forallb (λ p, negb (is_index (fst p))) (reactInternals s) = true ∧
  tried sample_call s sample_node (enumeration_order s) =
  [Call (Ext 21) [sample_node]; Call (Ext 22) [sample_node]] ∧
  result (getIDForNode sample_guid sample_call sample_node) s = Ret (VStr "g0") ∧
  (∃ i, result (getIDForNode sample_guid sample_call sample_node) s = Ret i) ∧
  enumeration_order s = registration_order s.
Proof.
  cbv zeta.
  assert (Hnames :
    forallb (λ p, negb (is_index (fst p)))
      (reactInternals
         (run sample_guid sample_call
            [AddRoot "dom" sample_root;
             SetReactInternals "native" sample_thrower;
             SetReactInternals "dom" sample_helpers] (new_Agent ∅))) = true)
    by (vm_compute; reflexivity).
  split; [exact Hnames|]. split; [vm_compute; reflexivity|].
  split; [vm_compute; reflexivity|].
  exact (proj2 (getIDForNode_first_match sample_guid sample_call sample_node _ _ Hnames)).
Defined.

Lemma scroll_single_flight_witness :
  let s := new_Agent ∅ in
  let pending := after _onScroll (new_Agent ∅) in
  _scrollUpdate pending = true ∧
  _onScroll s = (Ret tt, set_frame_requests 1 (set_scrollUpdate true s)) ∧
  _onScroll pending = (Ret tt, pending) ∧
  scrolls 2 s = (Ret tt, set_frame_requests 1 (set_scrollUpdate true s)) ∧
  (emitted (after (run! scrolls 2 in animation_frame) s) =
   emitted s ++ [Event "refreshMultiOverlay" []] ∧
   _scrollUpdate (after (run! scrolls 2 in animation_frame) s) = false ∧
   frame_requests (after (run! scrolls 2 in animation_frame) s) = 0).
Proof.
  cbv zeta. split; [reflexivity|].
  apply (scroll_single_flight 1 (new_Agent ∅) (after _onScroll (new_Agent ∅)));
    reflexivity.
Defined.

Lemma makeGlobal_walk_witness :
  let s' := run sample_guid sample_call [OnMounted "dom" sample_root sample_input]
              (new_Agent ∅) in
  snapshot s' (VStr "g0") = Some sample_input ∧
  getIn sample_input (VArr (Ext 50) [VStr "state"]) = Ret VUndef ∧
  _makeGlobal (VStr "gone") (VArr (Ext 50) [VStr "props"]) (new_Agent ∅) =
  (Ret tt, new_Agent ∅) ∧
  (∃ v, getIn sample_input (VArr (Ext 50) [VStr "props"; VStr "value"]) = Ret v ∧
        _makeGlobal (VStr "g0") (VArr (Ext 50) [VStr "props"; VStr "value"]) s' =
        (Ret tt,
         set_console (λ l, l ++ [("log", [VStr "$tmp ="; v])])
           (set_global (insert "$tmp" v) s'))) ∧
  getIn sample_input (VArr (Ext 50) [VStr "state"; VStr "count"]) = Ret VNull.
Proof.
  cbv zeta. split; [vm_compute; reflexivity|]. split; [reflexivity|].
  apply (makeGlobal_walk (VStr "gone") (VArr (Ext 50) [VStr "props"]) (VStr "g0")
           sample_input VUndef (Ext 50) ["props"; "value"] ["state"] [] "count"
           (new_Agent ∅)
           (run sample_guid sample_call [OnMounted "dom" sample_root sample_input]
              (new_Agent ∅))).
  - reflexivity.
  - vm_compute. reflexivity.
  - reflexivity.
  - reflexivity.
Defined.

(** * Concrete runs of the other methods *)

Lemma single_flight_always_witness :
  let s := performs sample_guid sample_call
             [Core Scroll; Core (AddRoot "dom" sample_root); Core Scroll;
              ScrollToNode (VStr "g0")] (new_Agent ∅) in
  _scrollUpdate s = true ∧
  single_flight s ∧
  result animation_frame s = Ret tt ∧
  emitted (after animation_frame s) =
  emitted s ++ (if _scrollUpdate s then [Event "refreshMultiOverlay" []] else []) ∧
  _scrollUpdate (after animation_frame s) = false ∧
  frame_requests (after animation_frame s) = 0.
Proof.
  cbv zeta. split; [vm_compute; reflexivity|].
  apply (single_flight_always sample_guid sample_call).
  apply reachable_all_performs.
Defined.

Lemma resolved_have_snapshots_witness :
  let s := performs sample_guid sample_call
             [Core (SetReactInternals "dom" sample_helpers);
              Core (OnMounted "dom" sample_root sample_app)] (new_Agent ∅) in
  resolved_node sample_call s (VStr "g0") = Some sample_node ∧
  attributed_have_snapshots s ∧
  is_Some (elementData s !! key_of (VStr "g0")).
Proof.
  cbv zeta.
  assert (Hres : resolved_node sample_call
            (performs sample_guid sample_call
               [Core (SetReactInternals "dom" sample_helpers);
                Core (OnMounted "dom" sample_root sample_app)] (new_Agent ∅))
            (VStr "g0") = Some sample_node) by (vm_compute; reflexivity).
  split; [exact Hres|].
  exact (resolved_have_snapshots sample_guid sample_call _ _ _
           (reachable_all_performs sample_guid sample_call ∅ _) Hres).
Defined.

Lemma token_leads_back_witness :
  let s := performs sample_guid sample_call
             [Core (AddRoot "dom" sample_root);
              SelectFromReactInstance sample_child VUndef;
              Core (OnUnmounted sample_child)] (new_Agent ∅) in
  ids s !! Ext 1 = Some "g0" ∧
  getId sample_guid sample_root s = (Ret (VStr "g0"), s) ∧
  (∃ H', reactElements s !! KStr "g0" = Some H' ∧ ref_of H' = Some (Ext 1)) ∧
  (∀ b, ids s !! b = Some "g0" → b = Ext 1).
Proof.
  cbv zeta.
  assert (Hi : ids (performs sample_guid sample_call
                      [Core (AddRoot "dom" sample_root);
                       SelectFromReactInstance sample_child VUndef;
                       Core (OnUnmounted sample_child)] (new_Agent ∅)) !! Ext 1 =
               Some "g0") by (vm_compute; reflexivity).
  split; [exact Hi|].
  exact (token_leads_back sample_guid sample_call sample_root (Ext 1) "g0" _
           sample_guid_unique (reachable_all_performs sample_guid sample_call ∅ _)
           eq_refl Hi).
Defined.

Lemma commands_leave_store_witness :
  let s := performs sample_guid sample_call
             [Core (SetReactInternals "dom" sample_helpers);
              Core (OnMounted "dom" sample_root sample_input)] (new_Agent ∅) in
  is_command (Core (SetProps (VStr "g0") (VArr (Ext 50) [VStr "value"]) (VStr "b"))) = true ∧
  same_store s
    (after (perform sample_guid sample_call
              (Core (SetProps (VStr "g0") (VArr (Ext 50) [VStr "value"]) (VStr "b")))) s).
Proof.
  cbv zeta. split; [reflexivity|].
  exact (commands_leave_store sample_guid sample_call
           (Core (SetProps (VStr "g0") (VArr (Ext 50) [VStr "value"]) (VStr "b"))) _
           eq_refl).
Defined.

Lemma unattributed_unresolved_witness :
  let s := run sample_guid sample_call
             [SetReactInternals "dom" sample_helpers; AddRoot "dom" sample_root]
             (new_Agent ∅) in
  reactElements s !! KStr "g0" = Some sample_root ∧
  renderers s !! KStr "g0" = None ∧
  getNodeForID sample_call (VStr "g0") s = (Ret VNull, s) ∧
  highlight sample_call (VStr "g0") s = (Ret tt, s) ∧
  highlightMany sample_call [VStr "g0"] s = (Ret tt, set_allocs (S (allocs s)) s) ∧
  scrollToNode sample_call (VStr "g0") s =
  (Ret tt,
   set_console (λ l, l ++ [("warn", [VStr "unable to get the node for scrolling"])]) s).
Proof.
  cbv zeta. split; [vm_compute; reflexivity|].
  assert (Hr : renderers (run sample_guid sample_call
                 [SetReactInternals "dom" sample_helpers; AddRoot "dom" sample_root]
                 (new_Agent ∅)) !! key_of (VStr "g0") = None) by (vm_compute; reflexivity).
  split; [exact Hr|].
  exact (unattributed_unresolved sample_call (VStr "g0") _ Hr).
Defined.

Lemma unmounted_unresolved_witness :
  let s := run sample_guid sample_call
             [SetReactInternals "dom" sample_helpers;
              OnMounted "dom" sample_root sample_app] (new_Agent ∅) in
  let s' := after (onUnmounted sample_guid sample_root) s in
  resolved_node sample_call s (VStr "g0") = Some sample_node ∧
  reactElements s' = reactElements s ∧
  getNodeForID sample_call (VStr "g0") s' = (Ret VNull, s') ∧
  highlight sample_call (VStr "g0") s' = (Ret tt, s') ∧
  invoked s' = invoked s.
Proof.
  cbv zeta. split; [vm_compute; reflexivity|].
  apply (unmounted_unresolved sample_guid sample_call sample_root (Ext 1) "g0").
  - reflexivity.
  - vm_compute. reflexivity.
Defined.

Lemma onUnmounted_unregistered_witness :
  let s := new_Agent ∅ in
  let s' := after (onUnmounted sample_guid sample_root) s in
  result (onUnmounted sample_guid sample_root) s = Ret tt ∧
  ids s' = ids s ∧
  guid_calls s' = S (guid_calls s) ∧
  reactElements s' = <[KStr (sample_guid (guid_calls s)) := sample_root]> (reactElements s) ∧
  emitted s' = emitted s ++ [Event "unmount" [VStr (sample_guid (guid_calls s))]].
Proof.
  exact (onUnmounted_unregistered sample_guid sample_root (Ext 1) (new_Agent ∅)
           eq_refl eq_refl).
Defined.

Lemma payload_shape_witness :
  make_send sample_guid sample_call (VStr "g0") sample_component (new_Agent ∅) =
  (Ret (VObj (Loc 0)
          [("name", VStr "Button"); ("publicInstance", sample_instance);
           ("id", VStr "g0"); ("canUpdate", VBool true)]),
   after (make_send sample_guid sample_call (VStr "g0") sample_component) (new_Agent ∅)) ∧
  ∃ props,
    VObj (Loc 0)
      [("name", VStr "Button"); ("publicInstance", sample_instance);
       ("id", VStr "g0"); ("canUpdate", VBool true)] =
    VObj (Loc (allocs (new_Agent ∅))) props ∧
    lookup_prop "id" props = Some (VStr "g0") ∧
    lookup_prop "type" props = None ∧
    lookup_prop "updater" props = None ∧
    lookup_prop "canUpdate" props = Some (canUpdate_for sample_component) ∧
    (∀ k, k ∉ rewritten → lookup_prop k props = lookup_prop k (own_props sample_component)).
Proof.
  assert (E : make_send sample_guid sample_call (VStr "g0") sample_component (new_Agent ∅) =
    (Ret (VObj (Loc 0)
            [("name", VStr "Button"); ("publicInstance", sample_instance);
             ("id", VStr "g0"); ("canUpdate", VBool true)]),
     after (make_send sample_guid sample_call (VStr "g0") sample_component) (new_Agent ∅)))
    by (vm_compute; reflexivity).
  split; [exact E|].
  exact (payload_shape sample_guid sample_call _ _ _ _ _ E).
Defined.

Lemma makeGlobal_instance_witness :
  let s := run sample_guid sample_call [OnMounted "dom" sample_root sample_component]
             (new_Agent ∅) in
  snapshot s (VStr "g0") = Some sample_component ∧
  field sample_component "publicInstance" = sample_instance ∧
  _makeGlobal (VStr "g0") (VStr "instance") s =
  (Ret tt,
   set_console
     (λ l, l ++ [("log", [VStr "$tmp ="; field sample_component "publicInstance"])])
     (set_global (insert "$tmp" (field sample_component "publicInstance")) s)) ∧
  _makeGlobal (VStr "g0") (VArr (Ext 50) [VStr "publicInstance"]) s =
  _makeGlobal (VStr "g0") (VStr "instance") s.
Proof.
  cbv zeta.
  assert (Hs : snapshot
            (run sample_guid sample_call [OnMounted "dom" sample_root sample_component]
               (new_Agent ∅)) (VStr "g0") = Some sample_component)
    by (vm_compute; reflexivity).
  split; [exact Hs|]. split; [reflexivity|].
  exact (makeGlobal_instance (VStr "g0") sample_component (Ext 50) _ Hs).
Defined.

Lemma makeGlobal_bad_path_witness :
  let s := run sample_guid sample_call [OnMounted "dom" sample_root sample_component]
             (new_Agent ∅) in
  snapshot s (VStr "g0") = Some sample_component ∧
  ∃ msg, _makeGlobal (VStr "g0") (VStr "props") s = (Throw (TypeError msg), s).
Proof.
  cbv zeta.
  assert (Hs : snapshot
            (run sample_guid sample_call [OnMounted "dom" sample_root sample_component]
               (new_Agent ∅)) (VStr "g0") = Some sample_component)
    by (vm_compute; reflexivity).
  split; [exact Hs|].
  exact (makeGlobal_bad_path (VStr "g0") sample_component (VStr "props") _ Hs
           eq_refl eq_refl).
Defined.

Lemma selectFromDOMNode_selects_witness :
  let s := run sample_guid sample_call [SetReactInternals "native" sample_thrower]
             (new_Agent ∅) in
  let s' := run sample_guid sample_call
              [AddRoot "dom" sample_root; SetReactInternals "dom" sample_helpers]
              (new_Agent ∅) in
  first_match sample_call s sample_node (enumeration_order s) = None ∧
  first_match sample_call s' sample_node (enumeration_order s') = Some sample_root ∧
  selectFromDOMNode sample_guid sample_call sample_node (VBool true) s =
  (Ret tt, set_invoked (λ l, l ++ tried sample_call s sample_node (enumeration_order s)) s) ∧
  selectFromDOMNode sample_guid sample_call sample_node (VBool true) s' =
  (Ret tt,
   set_emitted
     (λ l, l ++ [Event "setSelection"
                   [VObj (Loc (allocs s')) [("id", VStr "g0"); ("quiet", VBool true)]]])
     (set_allocs (S (allocs s'))
        (set_invoked (λ l, l ++ tried sample_call s' sample_node (enumeration_order s'))
           s'))).
Proof.
  cbv zeta.
  assert (H1 : first_match sample_call
            (run sample_guid sample_call [SetReactInternals "native" sample_thrower]
               (new_Agent ∅)) sample_node
            (enumeration_order
               (run sample_guid sample_call [SetReactInternals "native" sample_thrower]
                  (new_Agent ∅))) = None) by (vm_compute; reflexivity).
  assert (H2 : first_match sample_call
            (run sample_guid sample_call
               [AddRoot "dom" sample_root; SetReactInternals "dom" sample_helpers]
               (new_Agent ∅)) sample_node
            (enumeration_order
               (run sample_guid sample_call
                  [AddRoot "dom" sample_root; SetReactInternals "dom" sample_helpers]
                  (new_Agent ∅))) = Some sample_root) by (vm_compute; reflexivity).
  split; [exact H1|]. split; [exact H2|].
  apply (selectFromDOMNode_selects sample_guid sample_call sample_node (VBool true)
           sample_node (VBool true) sample_root (Ext 1) "g0" _ _ H1 H2).
  - reflexivity.
  - vm_compute. reflexivity.
  - discriminate.
Defined.

Lemma selectFromReactInstance_selects_witness :
  let s' := run sample_guid sample_call [AddRoot "dom" sample_root] (new_Agent ∅) in
  ids s' !! Ext 1 = Some "g0" ∧
  selectFromReactInstance sample_guid VNull VUndef (new_Agent ∅) =
  (Ret tt,
   set_console (λ l, l ++ [("log", [VStr "no instance id"; VNull])]) (new_Agent ∅)) ∧
  selectFromReactInstance sample_guid sample_root VUndef s' =
  (Ret tt,
   set_emitted
     (λ l, l ++ [Event "setSelection"
                   [VObj (Loc (allocs s')) [("id", VStr "g0"); ("quiet", VUndef)]]])
     (set_allocs (S (allocs s')) s')).
Proof.
  cbv zeta.
  assert (Hi : ids (run sample_guid sample_call [AddRoot "dom" sample_root] (new_Agent ∅))
                 !! Ext 1 = Some "g0") by (vm_compute; reflexivity).
  split; [exact Hi|].
  apply (selectFromReactInstance_selects sample_guid VNull VUndef sample_root VUndef
           (Ext 1) "g0" (new_Agent ∅) _ eq_refl eq_refl Hi).
  discriminate.
Defined.

Lemma scrollToNode_scrolls_witness :
  let s := run sample_guid sample_page_call
             [SetReactInternals "dom" sample_page_helpers;
              OnMounted "dom" sample_root sample_app] (new_Agent ∅) in
  let s1 := after (getNodeForID sample_page_call (VStr "g0")) s in
  getNodeForID sample_page_call (VStr "g0") s = (Ret sample_text, s1) ∧
  scroll_target sample_text = sample_element ∧
  scroll_method sample_element = Some (Ext 25) ∧
  scrollToNode sample_page_call (VStr "g0") s =
  if truthy (scroll_target sample_text) then
    match scroll_method (scroll_target sample_text) with
    | Some f =>
        match sample_page_call f [] with
        | Ret _ => highlight sample_page_call (VStr "g0")
                     (set_invoked (λ l, l ++ [Call f []]) s1)
        | Throw e => (Throw e, set_invoked (λ l, l ++ [Call f []]) s1)
        end
    | None => highlight sample_page_call (VStr "g0") s1
    end
  else
    (Ret tt,
     set_console (λ l, l ++ [("warn", [VStr "unable to get the element for scrolling"])]) s1).
Proof.
  cbv zeta.
  assert (E : getNodeForID sample_page_call (VStr "g0")
                (run sample_guid sample_page_call
                   [SetReactInternals "dom" sample_page_helpers;
                    OnMounted "dom" sample_root sample_app] (new_Agent ∅)) =
              (Ret sample_text,
               after (getNodeForID sample_page_call (VStr "g0"))
                 (run sample_guid sample_page_call
                    [SetReactInternals "dom" sample_page_helpers;
                     OnMounted "dom" sample_root sample_app] (new_Agent ∅))))
    by (vm_compute; reflexivity).
  split; [exact E|]. split; [reflexivity|]. split; [reflexivity|].
  exact (scrollToNode_scrolls sample_page_call (VStr "g0") sample_text _ _ E eq_refl).
Defined.


Lemma snapshot_last_write_witness :
  let s := run sample_guid sample_call [AddRoot "dom" sample_root] (new_Agent ∅) in
  let s' := run sample_guid sample_call
              [OnMounted "dom" sample_root sample_app; OnUpdated sample_root sample_input] s in
  ids s !! Ext 1 = Some "g0" ∧
  elementData s' !! KStr "g0" = Some sample_input ∧
  renderers s' !! KStr "g0" = Some "dom" ∧
  ids s' !! Ext 1 = Some "g0".
Proof.
  cbv zeta.
  assert (Hi : ids (run sample_guid sample_call [AddRoot "dom" sample_root] (new_Agent ∅))
                 !! Ext 1 = Some "g0") by (vm_compute; reflexivity).
  split; [exact Hi|].
  exact (snapshot_last_write sample_guid sample_call "dom" sample_root sample_app
           sample_input (Ext 1) "g0" _ eq_refl Hi).
Defined.

Lemma identity_for_handle_witness :
  let s := run sample_guid sample_call [OnMounted "dom" sample_root sample_app]
             (new_Agent ∅) in
  ids s !! Ext 1 = Some "g0" ∧
  addRoot sample_guid "dom" (VStr "g0") s = addRoot sample_guid "dom" sample_root s ∧
  onMounted sample_guid sample_call "dom" (VStr "g0") sample_input s =
  onMounted sample_guid sample_call "dom" sample_root sample_input s ∧
  onUpdated sample_guid sample_call (VStr "g0") sample_input s =
  onUpdated sample_guid sample_call sample_root sample_input s ∧
  elementData (after (onUnmounted sample_guid (VStr "g0")) s) !! KStr "g0" = None ∧
  ids (after (onUnmounted sample_guid (VStr "g0")) s) !! Ext 1 = Some "g0" ∧
  ids (after (onUnmounted sample_guid sample_root) s) !! Ext 1 = None.
Proof.
  cbv zeta.
  assert (Hi : ids (run sample_guid sample_call [OnMounted "dom" sample_root sample_app]
                      (new_Agent ∅)) !! Ext 1 = Some "g0") by (vm_compute; reflexivity).
  split; [exact Hi|].
  exact (identity_for_handle sample_guid sample_call "dom" sample_root sample_input
           (Ext 1) "g0" _ eq_refl Hi).
Defined.

Lemma selected_after_mount_witness :
  let s := run sample_guid sample_call [AddRoot "dom" sample_root] (new_Agent ∅) in
  let sm := after (onMounted sample_guid sample_call "dom" sample_root sample_component) s in
  let su := after (onUnmounted sample_guid sample_root) sm in
  ids s !! Ext 1 = Some "g0" ∧
  field sample_component "publicInstance" = sample_instance ∧
  global (after (on_bridge_selected (VStr "g0")) sm) !! "$re" =
  Some (field sample_component "publicInstance") ∧
  global (after (on_bridge_selected (VStr "g0")) su) = global su.
Proof.
  cbv zeta.
  assert (Hi : ids (run sample_guid sample_call [AddRoot "dom" sample_root] (new_Agent ∅))
                 !! Ext 1 = Some "g0") by (vm_compute; reflexivity).
  split; [exact Hi|]. split; [reflexivity|].
  exact (selected_after_mount sample_guid sample_call "dom" sample_root sample_component
           (Ext 1) "g0" _ eq_refl Hi eq_refl eq_refl).
Defined.

(** * Concrete pages *)

Lemma capabilities_defaults_witness :
  own_props VUndef = [] ∧
  capabilities_of sample_window VUndef =
  Ret [("scroll", VBool true); ("dom", VBool true); ("editTextContent", VBool false)] ∧
  ∃ dom scroll,
    [("scroll", VBool true); ("dom", VBool true); ("editTextContent", VBool false)] =
    [("scroll", scroll); ("dom", dom); ("editTextContent", VBool false)] ∧
    (truthy scroll = true → dom = VBool true) ∧
    (truthy dom = false → scroll = dom) ∧
    (truthy (field sample_window "document") = false →
     dom = field sample_window "document").
Proof.
  split; [reflexivity|]. split; [reflexivity|].
  exact (capabilities_defaults sample_window VUndef _ eq_refl eq_refl).
Defined.

Lemma capabilities_no_body_witness :
  get sample_early_window "document" =
  Ret (VObj (Ext 61) [("createElement", VFun (Ext 62)); ("body", VNull)]) ∧
  ∃ msg, capabilities_of sample_early_window VUndef = Throw (TypeError msg).
Proof.
  split; [reflexivity|].
  exact (capabilities_no_body sample_early_window VUndef
           (VObj (Ext 61) [("createElement", VFun (Ext 62)); ("body", VNull)])
           VNull (Ext 62) eq_refl eq_refl eq_refl (or_intror eq_refl)).
Defined.

Lemma capabilities_override_witness :
  let capabilities :=
    VObj (Ext 64) [("editTextContent", VBool true); ("scroll", VBool false)] in
  capabilities_of sample_window capabilities =
  Ret [("scroll", VBool false); ("dom", VBool true); ("editTextContent", VBool true)] ∧
  ∃ defaults,
    capabilities_of sample_window VUndef = Ret defaults ∧
    (∀ k v, In (k, v) (own_props capabilities) →
            lookup_prop k
              [("scroll", VBool false); ("dom", VBool true); ("editTextContent", VBool true)] =
            Some v) ∧
    (∀ k, ¬ In k (List.map fst (own_props capabilities)) →
          lookup_prop k
            [("scroll", VBool false); ("dom", VBool true); ("editTextContent", VBool true)] =
          lookup_prop k defaults).
Proof.
  cbv zeta. split; [reflexivity|].
  refine (capabilities_override sample_window
            (VObj (Ext 64) [("editTextContent", VBool true); ("scroll", VBool false)])
            _ _ eq_refl).
  apply (bool_decide_unpack _). vm_compute. exact I.
Defined.

Lemma checkSelection_no_echo_witness :
  let s := run sample_guid sample_page_call
             [SetReactInternals "dom" sample_page_helpers;
              OnMounted "dom" sample_root sample_app] (new_Agent ∅) in
  let p := mkInspector s VNull {["$0" := sample_text]} in
  let p1 := snd (putSelectedNode sample_page_call (VStr "g0") p) in
  let p2 := snd (checkSelection sample_guid sample_page_call p1) in
  result (getNodeForID sample_page_call (VStr "g0")) s = Ret sample_text ∧
  fst (putSelectedNode sample_page_call (VStr "g0") p) = Ret tt ∧
  hook p1 !! "$node" = Some sample_text ∧
  invoked_only (agent p) (agent p1) ∧
  fst (checkSelection sample_guid sample_page_call p1) = Ret tt ∧
  agent p2 = agent p1 ∧
  strict_equal sample_text (_prevSelected p2) = true.
Proof.
  cbv zeta.
  assert (E : result (getNodeForID sample_page_call (VStr "g0"))
                (run sample_guid sample_page_call
                   [SetReactInternals "dom" sample_page_helpers;
                    OnMounted "dom" sample_root sample_app] (new_Agent ∅)) =
              Ret sample_text) by (vm_compute; reflexivity).
  split; [exact E|].
  exact (checkSelection_no_echo sample_guid sample_page_call (VStr "g0") sample_text
           (mkInspector _ VNull {["$0" := sample_text]}) E eq_refl).
Defined.

Lemma checkSelection_selects_witness :
  let s := run sample_guid sample_call
             [AddRoot "dom" sample_root; SetReactInternals "dom" sample_helpers]
             (new_Agent ∅) in
  let p := mkInspector s VNull {["$0" := sample_node]} in
  first_match sample_call s sample_node (enumeration_order s) = Some sample_root ∧
  ids s !! Ext 1 = Some "g0" ∧
  checkSelection sample_guid sample_call p =
  (Ret tt,
   mkInspector
     (set_emitted
        (λ l, l ++ [Event "setSelection"
                      [VObj (Loc (allocs (agent p))) [("id", VStr "g0"); ("quiet", VBool true)]]])
        (set_allocs (S (allocs (agent p)))
           (set_invoked
              (λ l, l ++ tried sample_call (agent p) sample_node
                           (enumeration_order (agent p)))
              (agent p))))
     sample_node (hook p)).
Proof.
  cbv zeta.
  assert (Hm : first_match sample_call
            (run sample_guid sample_call
               [AddRoot "dom" sample_root; SetReactInternals "dom" sample_helpers]
               (new_Agent ∅)) sample_node
            (enumeration_order
               (run sample_guid sample_call
                  [AddRoot "dom" sample_root; SetReactInternals "dom" sample_helpers]
                  (new_Agent ∅))) = Some sample_root) by (vm_compute; reflexivity).
  assert (Hi : ids (run sample_guid sample_call
                      [AddRoot "dom" sample_root; SetReactInternals "dom" sample_helpers]
                      (new_Agent ∅)) !! Ext 1 = Some "g0") by (vm_compute; reflexivity).
  split; [exact Hm|]. split; [exact Hi|].
  refine (checkSelection_selects sample_guid sample_call sample_node sample_root (Ext 1) "g0"
            (mkInspector _ VNull {["$0" := sample_node]}) eq_refl eq_refl eq_refl Hm eq_refl Hi
            _).
  discriminate.
Defined.
